(** * gemini_analysis.py: the resumable batch-submission controller

    A shallow embedding of [src/gemini_analysis.py] and the properties of
    its batch driver: the loader of the completion ledger, the directory
    enumeration, the retry loop and the result writer.

    Conventions of the embedding.
    - A Python [str] is a [string]; a character is a code point below 256.
    - A path is the list of its components below [args.image_directory];
      [os.path.join p name] is [p ++ [name]].
    - [responses.txt] is text, read with universal newlines and written on
      a POSIX host (a written newline stays one line feed).
    - The program runs in a state-and-exception monad that also records
      the sequence of effects (remote calls, writes, prints, sleeps).
    - Inside the [try] block three statements may raise: the remote call,
      the print of the answer and the write of its line (a text that the
      console or the file cannot take); what raises there leaves no
      effect behind and is handled by the [except] clause.  The flush of
      a written line, the update of the ledger and the prints outside
      the [try] block succeed.
    - [main] is modelled from line 150 on: the diagnostics at its top
      (API key echo, client set-up, model listing, lines 137-148) come
      before the prompt is read and are left out of a run. *)

From Equations Require Import Equations.
From Stdlib Require Import Ascii String.
From stdpp Require Import base decidable option list sorting gmap strings.

Set Warnings "-register-all".

(** ** Python string operations used by the program *)

Module Py.

Local Open Scope char_scope.

Definition LF : ascii := "010".
Definition CR : ascii := "013".

(** [str.isspace] on one character, for code points below 256. *)
Definition isspace (c : ascii) : bool :=
  match c with
  | "009" | "010" | "011" | "012" | "013"
  | "028" | "029" | "030" | "031" | " " | "133" | "160" => true
  | _ => false
  end.

Fixpoint lstrip (s : string) : string :=
  match s with
  | EmptyString => EmptyString
  | String c s' => if isspace c then lstrip s' else s
  end.

Fixpoint rstrip (s : string) : string :=
  match s with
  | EmptyString => EmptyString
  | String c s' =>
      match rstrip s' with
      | EmptyString => if isspace c then EmptyString else String c EmptyString
      | r => String c r
      end
  end.

(** [s.strip()] *)
Definition strip (s : string) : string := rstrip (lstrip s).

(** [s.split(sep)] for a one-character separator.  Python returns a
    list that is never empty; the first field and the remaining fields
    are returned separately, so that [entry_list[0]] is total. *)
Fixpoint split (sep : ascii) (s : string) : string * list string :=
  match s with
  | EmptyString => (EmptyString, [])
  | String c s' =>
      let '(hd, tl) := split sep s' in
      if Ascii.eqb c sep then (EmptyString, hd :: tl) else (String c hd, tl)
  end.

(** Text-mode reading translates "\r\n" and a lone "\r" to "\n":
    a carriage return is read as a line feed, and a line feed that
    comes right after a carriage return is dropped ([pending_cr]). *)
Fixpoint translate_newlines (pending_cr : bool) (s : string) : string :=
  match s with
  | EmptyString => EmptyString
  | String c s' =>
      if Ascii.eqb c CR then String LF (translate_newlines true s')
      else if Ascii.eqb c LF && pending_cr then translate_newlines false s'
      else String c (translate_newlines false s')
  end.

Definition universal_newlines (s : string) : string :=
  translate_newlines false s.

(** The lines of a text, each with its line feed, as [for line in file]
    yields them; a last line need not be terminated. *)
Fixpoint splitlines (s : string) : list string :=
  match s with
  | EmptyString => []
  | String c s' =>
      if Ascii.eqb c LF then String c EmptyString :: splitlines s'
      else match splitlines s' with
           | [] => [String c EmptyString]
           | l :: ls => String c l :: ls
           end
  end.

Definition file_lines (content : string) : list string :=
  splitlines (universal_newlines content).

(** [sorted(names)]: strings compare by code point. *)
Definition sorted (names : list string) : list string :=
  merge_sort String.le names.

End Py.

(** ** The image directory *)

Definition path := list string.

(** A directory entry.  [Reg ok] is a regular file (or a link to one),
    [ok] telling whether [PIL.Image.open] accepts it; [Dir link es] is a
    directory, [link] telling whether the entry is a symbolic link to it;
    [Other] is anything else (socket, fifo, dangling link). *)
Inductive node :=
| Reg (ok : bool)
| Other
| Dir (link : bool) (entries : list (string * node)).

Module Os.

Definition is_dir (n : node) : bool :=
  match n with Dir _ _ => true | _ => false end.

Fixpoint lookup_entry (name : string) (es : list (string * node)) : option node :=
  match es with
  | [] => None
  | (k, n) :: es' => if decide (k = name) then Some n else lookup_entry name es'
  end.

(** The node a path leads to, starting from the node of the image
    directory. *)
Fixpoint resolve (n : node) (p : path) : option node :=
  match p with
  | [] => Some n
  | name :: p' =>
      match n with
      | Dir _ es =>
          match lookup_entry name es with
          | Some c => resolve c p'
          | None => None
          end
      | _ => None
      end
  end.

Definition path_join (p : path) (name : string) : path := p ++ [name].

(** [os.path.isfile]: follows links, true on regular files only. *)
Definition path_isfile (root : node) (p : path) : bool :=
  match resolve root p with Some (Reg _) => true | _ => false end.

Definition dirnames (es : list (string * node)) : list string :=
  (filter (λ e, Is_true (is_dir e.2)) es).*1.

Definition filenames (es : list (string * node)) : list string :=
  (filter (λ e, ¬ Is_true (is_dir e.2)) es).*1.

(** [os.walk(top)], top-down, links to directories listed but not
    entered; a [top] that is missing or not a directory yields nothing. *)
Fixpoint walk (top : path) (n : node) : list (path * list string * list string) :=
  match n with
  | Dir _ es =>
      (top, dirnames es, filenames es) ::
      (fix below (l : list (string * node)) :=
         match l with
         | [] => []
         | (name, c) :: l' =>
             match c with
             | Dir false _ => walk (path_join top name) c ++ below l'
             | _ => below l'
             end
         end) es
  | _ => []
  end.

End Os.

(** ** Effects *)

(** One request to [client.models.generate_content]. *)
Record request := Request {
  req_model : string;
  req_prompt : string;
  req_image : path
}.

(** What the program prints. *)
Inductive message :=
| MsgExisting (n : nat)                  (* "<n> existing responses detected" *)
| MsgStartingNew                         (* "Starting new responses file" *)
| MsgSubdir (name : string)              (* print(subdirname) *)
| MsgAlreadyWritten (name : string)      (* "ALREADY WRITTEN SO SKIPPING <name>" *)
| MsgResponse (line : string)            (* print(response_csv_line, end="") *)
| MsgError (p : path) (try max : nat)    (* "Error on image <p>, try k/max" and the exception *)
| MsgRetrying (wait : nat)               (* "Retrying in <wait> seconds..." *)
| MsgMaxRetries.                         (* "Max retries reached. ..." *)

Inductive event :=
| EvPrint (m : message)
| EvImageOpen (p : path)
| EvGenerate (r : request)
| EvWrite (line : string)
| EvFlush
| EvSetAdd (name : string)
| EvSleep (seconds : nat).

Inductive exn :=
| PromptOpenError                        (* open("prompt_text.txt", 'r') *)
| ResponsesReadError                     (* open(responses_filename, "r") *)
| ResponsesAppendError                   (* open(responses_filename, "a") *)
| FileNotFoundError (p : path)           (* os.listdir of a missing path *)
| NotADirectoryError (p : path)          (* os.listdir of a non-directory *)
| ImageOpenError (p : path)              (* PIL.Image.open *)
| GenerateError                          (* generate_content, or response.text *)
| StdoutError                            (* print(response_csv_line, end="") *)
| FileWriteError.                        (* responses_fp.write *)

Inductive result (A : Type) :=
| Ok (a : A)
| Raise (e : exn).
Arguments Ok {A} a.
Arguments Raise {A} e.

(** The mutable state of a run.  [remote] is the state of what lies
    outside the program, the inference service first of all;
    [responses_txt] is the content of responses.txt on disk
    ([None]: no such file); [buffer] is what was written to
    [responses_fp] and not yet flushed. *)
Record state (W : Type) := State {
  remote : W;
  responses_txt : option string;
  buffer : string;
  already_written_set : gset string
}.
Arguments State {W}.
Arguments remote {W}.
Arguments responses_txt {W}.
Arguments buffer {W}.
Arguments already_written_set {W}.

Definition M (W A : Type) : Type := state W → result A * state W * list event.

Global Instance M_ret {W} : MRet (M W) := λ A a s, (Ok a, s, []).

Global Instance M_bind {W} : MBind (M W) := λ A B k m s,
  match m s with
  | (Ok a, s1, t1) => let '(r, s2, t2) := k a s1 in (r, s2, t1 ++ t2)
  | (Raise e, s1, t1) => (Raise e, s1, t1)
  end.

Definition raise {W A} (e : exn) : M W A := λ s, (Raise e, s, []).

Definition emit {W} (e : event) : M W unit := λ s, (Ok tt, s, [e]).

(** [try: body except Exception as e: handler e]. *)
Definition try_except {W A} (body : M W A) (handler : exn → M W A) : M W A := λ s,
  match body s with
  | (Raise e, s1, t1) => let '(r, s2, t2) := handler e s1 in (r, s2, t1 ++ t2)
  | done => done
  end.

(** [for x in l: body x], where [continue] is the end of [body]. *)
Fixpoint for_each {W A} (l : list A) (body : A → M W unit) : M W unit :=
  match l with
  | [] => mret tt
  | x :: l' => body x;; for_each l' body
  end.

Definition print {W} (m : message) : M W unit := emit (EvPrint m).

(** ** The program *)

(** Rights on responses.txt: whether it opens for reading and for
    appending. *)
Record access := Access { can_read : bool; can_append : bool }.

Section Program.

(** What lies outside the program is in a state of type [W].  The
    inference service: a request is answered with a text or fails (any
    exception, or a response without text), and the state moves on. *)
Context {W : Type}.
Variable generate_content : W → request → option string * W.

(** The console and the file: whether, in a given state, the print of a
    line (line 107) and the write of a line to [responses_fp] (line 109)
    raise, as they do on a text that cannot be encoded. *)
Variable print_raises : W → string → bool.
Variable write_raises : W → string → bool.

(** [args.filter_re], as the test [re.search(filter_re, name) != None],
    and [args.model]. *)
Variable filter_re : string → bool.
Variable model_string : string.

(** The node at [args.image_directory]. *)
Variable image_directory : node.

(** prompt_text.txt ([None]: it does not open) and the rights on
    responses.txt. *)
Variable prompt_text_txt : option string.
Variable responses_access : access.

Definition max_retries : nat := 4.
Definition delay_seconds : nat := 1.

Definition call_generate (r : request) : M W (option string) := λ s,
  let '(o, w) := generate_content (remote s) r in
  (Ok o,
   State w (responses_txt s) (buffer s) (already_written_set s),
   [EvGenerate r]).

(** The call of line 96 and [response.text] of line 106. *)
Definition generate_text (r : request) : M W string :=
  response ← call_generate r;
  match response with
  | Some text => mret text
  | None => raise GenerateError
  end.

(** Line 107. *)
Definition print_response (line : string) : M W unit := λ s,
  if print_raises (remote s) line then (Raise StdoutError, s, [])
  else (Ok tt, s, [EvPrint (MsgResponse line)]).

Definition fp_write (line : string) : M W unit := λ s,
  if write_raises (remote s) line then (Raise FileWriteError, s, [])
  else
    (Ok tt,
     State (remote s) (responses_txt s) (buffer s +:+ line) (already_written_set s),
     [EvWrite line]).

Definition fp_flush : M W unit := λ s,
  (Ok tt,
   State (remote s) (Some (default "" (responses_txt s) +:+ buffer s)) ""
         (already_written_set s),
   [EvFlush]).

Definition set_add (name : string) : M W unit := λ s,
  (Ok tt,
   State (remote s) (responses_txt s) (buffer s) ({[name]} ∪ already_written_set s),
   [EvSetAdd name]).

Definition set_contains (name : string) : M W bool := λ s,
  (Ok (bool_decide (name ∈ already_written_set s)), s, []).

Definition sleep (seconds : nat) : M W unit := emit (EvSleep seconds).

Definition listdir (p : path) : M W (list string) :=
  match Os.resolve image_directory p with
  | Some (Dir _ es) => mret es.*1
  | Some _ => raise (NotADirectoryError p)
  | None => raise (FileNotFoundError p)
  end.

(** [Image.open(file_path)], called on paths that [os.path.isfile]
    accepted. *)
Definition image_open (p : path) : M W unit :=
  emit (EvImageOpen p);;
  match Os.resolve image_directory p with
  | Some (Reg true) => mret tt
  | _ => raise (ImageOpenError p)
  end.

(** One turn of the loop, the [try] statement of lines 95-127: [true]
    when it ends in [break], [false] when the [except] clause ran, which
    adds one to [retry_count]. *)
Definition attempt (img_filename : string) (file_path : path)
    (prompt_string : string) (retry_count : nat) : M W bool :=
  try_except
    (text ← generate_text (Request model_string prompt_string file_path);
     let response_csv_line := img_filename +:+ ", " +:+ text +:+ String Py.LF "" in
     print_response response_csv_line;;
     fp_write response_csv_line;;
     fp_flush;;
     set_add img_filename;;
     mret true (* break *))
    (λ e,
     print (MsgError file_path (retry_count + 1) max_retries);;
     let retry_count := retry_count + 1 in
     (if decide (retry_count < max_retries) then
        let wait_time := delay_seconds * retry_count in
        print (MsgRetrying wait_time);;
        sleep wait_time
      else
        print MsgMaxRetries);;
     mret false).

(** The [while retry_count < max_retries] loop of lines 94-127. *)
Equations? retry_loop (img_filename : string) (file_path : path)
    (prompt_string : string) (retry_count : nat) : M W unit
    by wf (max_retries - retry_count) lt :=
  retry_loop img_filename file_path prompt_string retry_count
    with decide (retry_count < max_retries) => {
    | right _ := mret tt
    | left _ :=
        broke ← attempt img_filename file_path prompt_string retry_count;
        if (broke : bool) then mret tt
        else retry_loop img_filename file_path prompt_string (retry_count + 1) }.
Proof. lia. Qed.

(** The body of the [for img_filename in sorted(os.listdir(img_dir))]
    loop, lines 76-127. *)
Definition process_entry (img_dir : path) (prompt_string : string)
    (img_filename : string) : M W unit :=
  if negb (filter_re img_filename) then mret tt (* continue *)
  else
    seen ← set_contains img_filename;
    if (seen : bool) then print (MsgAlreadyWritten img_filename) (* continue *)
    else
      let file_path := Os.path_join img_dir img_filename in
      if Os.path_isfile image_directory file_path then
        image_open file_path;;
        retry_loop img_filename file_path prompt_string 0
      else mret tt.

Definition send_filtered_image_prompts_for_directory
    (img_dir : path) (prompt_string : string) : M W unit :=
  names ← listdir img_dir;
  for_each (Py.sorted names) (process_entry img_dir prompt_string).

(** The key of a line of responses.txt, [line.strip().split(",")[0]]. *)
Definition line_key (line : string) : string :=
  (Py.split ","%char (Py.strip line)).1.

(** Lines 161-167: the ledger as loaded from the content of
    responses.txt. *)
Definition load_ledger (content : string) : gset string :=
  foldl (λ acc line, {[line_key line]} ∪ acc) ∅ (Py.file_lines content).

Definition read_prompt : M W string :=
  match prompt_text_txt with
  | Some text => mret text
  | None => raise PromptOpenError
  end.

(** Lines 161-170. *)
Definition load_already_written : M W unit := λ s,
  match responses_txt s with
  | Some content =>
      if can_read responses_access then
        let set := load_ledger content in
        (Ok tt, State (remote s) (responses_txt s) (buffer s) set,
         [EvPrint (MsgExisting (size set))])
      else (Raise ResponsesReadError, s, [])
  | None =>
      (Ok tt, State (remote s) (responses_txt s) (buffer s) ∅,
       [EvPrint MsgStartingNew])
  end.

(** Line 174: opening for append creates the file when it is missing. *)
Definition open_append : M W unit := λ s,
  if can_append responses_access then
    (Ok tt,
     State (remote s) (Some (default "" (responses_txt s))) "" (already_written_set s),
     [])
  else (Raise ResponsesAppendError, s, []).

(** Lines 176-190. *)
Definition walk_body (prompt_string : string)
    (entry : path * list string * list string) : M W unit :=
  let '(dirpath, dirnames, filenames) := entry in
  match dirnames with
  | [] => send_filtered_image_prompts_for_directory [] prompt_string
  | _ =>
      for_each (Py.sorted dirnames) (λ subdirname,
        print (MsgSubdir subdirname);;
        let full_subdirname := Os.path_join [] subdirname in
        send_filtered_image_prompts_for_directory full_subdirname prompt_string)
  end.

Definition main : M W unit :=
  prompt_string ← read_prompt;
  load_already_written;;
  open_append;;
  for_each (Os.walk [] image_directory) (walk_body prompt_string).

End Program.

(** The state a run starts in: the service in state [w], responses.txt
    as found on disk, nothing buffered, and the ledger not yet built. *)
Definition initial {W} (w : W) (responses : option string) : state W :=
  State w responses "" ∅.

(** ** Concrete hosts *)

(** The default [--filter_re], "[0-9].(jpg|png)$": a digit, any character
    but a line feed, then jpg or png at the end of the name or before its
    final line feed. *)
Definition is_digit (c : ascii) : bool :=
  match Ascii.is_nat c with Some _ => true | None => false end.

Definition ext_at_end (s : string) : bool :=
  bool_decide (s ∈ ["jpg"; "png"; "jpg" +:+ String Py.LF ""; "png" +:+ String Py.LF ""]).

Fixpoint default_filter_re (s : string) : bool :=
  match s with
  | String d ((String c rest) as tl) =>
      (is_digit d && negb (Ascii.eqb c Py.LF) && ext_at_end rest)
      || default_filter_re tl
  | _ => false
  end.

(** A service that plays a script: each call consumes one outcome; when
    the script is over every call fails. *)
Definition scripted (script : list (option string)) (r : request)
    : option string * list (option string) :=
  match script with
  | [] => (None, [])
  | o :: script' => (o, script')
  end.

(** A service that answers every request with the same text. *)
Definition steady (text : string) (w : unit) (r : request) : option string * unit :=
  (Some text, w).

(** A service that fails on every request. *)
Definition broken (w : unit) (r : request) : option string * unit := (None, w).

Definition rw : access := Access true true.

(** A console and a file that take every line, and ones that take
    none. *)
Definition takes_all {W} (w : W) (line : string) : bool := false.
Definition takes_none {W} (w : W) (line : string) : bool := true.

(** [main] with the default filter, a model name and a prompt, on a
    console and a file that take every line. *)
Definition run {W} (generate_content : W → request → option string * W)
    (image_directory : node) (w : W) (responses : option string)
    : result unit * state W * list event :=
  main generate_content takes_all takes_all default_filter_re
       "gemini-3-pro-preview" image_directory
       (Some "Describe the position.") rw (initial w responses).

Definition flat3 : node :=
  Dir false [("002.jpg", Reg true); ("notes.txt", Reg true);
             ("003.png", Reg true); ("001.jpg", Reg true)].

(** ** Reading a trace *)

(** The line written for a file and the text answered for it (line 106). *)
Definition response_csv_line (img_filename text : string) : string :=
  img_filename +:+ ", " +:+ text +:+ String Py.LF "".

(** The ledger after the events [t], starting from [L]. *)
Definition replay_ledger (t : list event) (L : gset string) : gset string :=
  foldl (λ acc e, match e with EvSetAdd name => {[name]} ∪ acc | _ => acc end) L t.

(** responses.txt and the buffer of [responses_fp] after the events [t]. *)
Definition replay_fp (t : list event) (fp : option string * string)
    : option string * string :=
  foldl (λ acc e,
           match e with
           | EvWrite line => (acc.1, acc.2 +:+ line)
           | EvFlush => (Some (default "" acc.1 +:+ acc.2), "")
           | _ => acc
           end) fp t.

(** The remote submissions of a trace, in order. *)
Definition submissions (t : list event) : list request :=
  omap (λ e, match e with EvGenerate r => Some r | _ => None end) t.

(** The sleeps of a trace, in order. *)
Definition sleeps (t : list event) : list nat :=
  omap (λ e, match e with EvSleep n => Some n | _ => None end) t.

(** The lines written by a trace, in order. *)
Definition written (t : list event) : list string :=
  omap (λ e, match e with EvWrite line => Some line | _ => None end) t.

(** The names added to the ledger by a trace, in order. *)
Definition marked (t : list event) : list string :=
  omap (λ e, match e with EvSetAdd name => Some name | _ => None end) t.

(** The file name a request is about: the last component of its path. *)
Definition submitted_name (r : request) : option string := last (req_image r).

(** Every mark comes right after the write and the flush of the line of
    the same file. *)
Definition write_before_mark (t : list event) : Prop :=
  ∀ pre name post, t = pre ++ EvSetAdd name :: post →
    ∃ pre' text, pre = pre' ++ [EvWrite (response_csv_line name text); EvFlush].

(** At every mark the line of the file is the end of responses.txt on
    disk and nothing is left in the buffer. *)
Definition durable_before_mark (fp : option string * string) (t : list event) : Prop :=
  ∀ pre name post, t = pre ++ EvSetAdd name :: post →
    ∃ content text,
      replay_fp pre fp = (Some (content +:+ response_csv_line name text), "").

(** No request is sent for a name that the ledger holds at that moment. *)
Definition fresh_submissions (L : gset string) (t : list event) : Prop :=
  ∀ pre r post name, t = pre ++ EvGenerate r :: post →
    submitted_name r = Some name → name ∉ replay_ledger pre L.

(** The state of the service after [k] failed calls in a row on [r]
    ([None]: one of them succeeds). *)
Fixpoint failures {W} (generate_content : W → request → option string * W)
    (r : request) (k : nat) (w : W) : option W :=
  match k with
  | 0 => Some w
  | S k' =>
      match generate_content w r with
      | (None, w1) => failures generate_content r k' w1
      | (Some _, _) => None
      end
  end.

(** The events of the failed attempts number [retry_count + 1] to
    [retry_count + k] of the retry loop. *)
Fixpoint failed_attempts (r : request) (retry_count k : nat) : list event :=
  match k with
  | 0 => []
  | S k' =>
      [EvGenerate r; EvPrint (MsgError (req_image r) (retry_count + 1) max_retries)]
      ++ (if decide (retry_count + 1 < max_retries)
          then [EvPrint (MsgRetrying (delay_seconds * (retry_count + 1)));
                EvSleep (delay_seconds * (retry_count + 1))]
          else [EvPrint MsgMaxRetries])
      ++ failed_attempts r (retry_count + 1) k'
  end.

(** The events of the [except] clause entered with [retry_count]
    (lines 119-127). *)
Definition handled (file_path : path) (retry_count : nat) : list event :=
  EvPrint (MsgError file_path (retry_count + 1) max_retries)
  :: (if decide (retry_count + 1 < max_retries)
      then [EvPrint (MsgRetrying (delay_seconds * (retry_count + 1)));
            EvSleep (delay_seconds * (retry_count + 1))]
      else [EvPrint MsgMaxRetries]).

(** One attempt that raises inside the [try] block: the state after it
    and the events before the exception ([None]: the attempt goes
    through).  The call fails, or the answer is not printed, or it is
    printed and not written. *)
Definition failed_attempt {W} (generate_content : W → request → option string * W)
    (print_raises write_raises : W → string → bool)
    (r : request) (img_filename : string) (w : W) : option (W * list event) :=
  match generate_content w r with
  | (None, w1) => Some (w1, [EvGenerate r])
  | (Some text, w1) =>
      let line := response_csv_line img_filename text in
      if print_raises w1 line then Some (w1, [EvGenerate r])
      else if write_raises w1 line then
        Some (w1, [EvGenerate r; EvPrint (MsgResponse line)])
      else None
  end.

(** [k] attempts in a row that raise, the first one at [retry_count]:
    the state after them and their events, those of the [except] clause
    included ([None]: one of them goes through). *)
Fixpoint misses {W} (generate_content : W → request → option string * W)
    (print_raises write_raises : W → string → bool)
    (r : request) (img_filename : string) (retry_count k : nat) (w : W)
    : option (W * list event) :=
  match k with
  | 0 => Some (w, [])
  | S k' =>
      match failed_attempt generate_content print_raises write_raises
          r img_filename w with
      | Some (w1, t1) =>
          match misses generate_content print_raises write_raises r img_filename
                  (retry_count + 1) k' w1 with
          | Some (w2, t2) => Some (w2, t1 ++ handled (req_image r) retry_count ++ t2)
          | None => None
          end
      | None => None
      end
  end.

(** The events of recording a response (lines 106-112). *)
Definition recording (img_filename text : string) : list event :=
  [EvPrint (MsgResponse (response_csv_line img_filename text));
   EvWrite (response_csv_line img_filename text);
   EvFlush;
   EvSetAdd img_filename].

(** The state after recording a response. *)
Definition recorded {W} (s : state W) (img_filename text : string) : state W :=
  State (remote s)
        (Some (default "" (responses_txt s)
               +:+ (buffer s +:+ response_csv_line img_filename text)))
        ""
        ({[img_filename]} ∪ already_written_set s).

Definition with_remote {W} (s : state W) (w : W) : state W :=
  State w (responses_txt s) (buffer s) (already_written_set s).

(** ** Names and texts that survive the line format *)

Fixpoint has_char (c : ascii) (s : string) : bool :=
  match s with
  | EmptyString => false
  | String c' s' => Ascii.eqb c' c || has_char c s'
  end.

(** No line break inside. *)
Definition single_line (s : string) : bool :=
  negb (has_char Py.LF s) && negb (has_char Py.CR s).

(** A file name that is the key of its own line: no comma, no line
    break, no white space in front. *)
Definition key_safe (name : string) : bool :=
  negb (has_char ","%char name) && single_line name
  && bool_decide (Py.lstrip name = name).

Fixpoint ends_with_lf (s : string) : bool :=
  match s with
  | EmptyString => false
  | String c EmptyString => Ascii.eqb c Py.LF
  | String _ s' => ends_with_lf s'
  end.

(** A content to which a line can be appended: empty, or ending in a
    line feed. *)
Definition terminated (content : string) : bool :=
  match content with
  | EmptyString => true
  | _ => ends_with_lf content
  end.

(** The ledger that [main] builds from responses.txt as found. *)
Definition loaded (responses : option string) : gset string :=
  match responses with
  | Some content => load_ledger content
  | None => ∅
  end.

(** ** Relations between the state before, the events and the state after *)

(** A relation that holds of the empty run and composes along a run. *)
Record compositional {W} (R : state W → list event → state W → Prop) : Prop := {
  comp_nil : ∀ s, R s [] s;
  comp_app : ∀ s t1 s1 t2 s2, R s t1 s1 → R s1 t2 s2 → R s (t1 ++ t2) s2
}.

(** [m] satisfies [R] from every state, whatever its result. *)
Definition respects {W A} (R : state W → list event → state W → Prop)
    (m : M W A) : Prop :=
  ∀ s, R s (m s).2 (m s).1.2.

(** A text that the service can answer. *)
Definition produced {W} (generate_content : W → request → option string * W)
    (text : string) : Prop :=
  ∃ w r w', generate_content w r = (Some text, w').

(** [R] holds of the steps of the batch: a request for a name that the
    ledger does not hold, a print, a sleep, the opening of an image, and
    the recording of an answer for a name that the ledger does not hold. *)
Record steps_ok {W} (generate_content : W → request → option string * W)
    (R : state W → list event → state W → Prop) : Prop := {
  step_generate : ∀ s r w name,
    submitted_name r = Some name → name ∉ already_written_set s →
    R s [EvGenerate r] (with_remote s w);
  step_print : ∀ s m, R s [EvPrint m] s;
  step_sleep : ∀ s n, R s [EvSleep n] s;
  step_open : ∀ s p, R s [EvImageOpen p] s;
  step_record : ∀ s name text,
    produced generate_content text → name ∉ already_written_set s →
    R s (recording name text) (recorded s name text)
}.


(** The entries of a directory that a scan accepts: matching names of
    regular files. *)
Definition accepted (filter_re : string → bool) (image_directory : node)
    (img_dir : path) (name : string) : bool :=
  filter_re name && Os.path_isfile image_directory (Os.path_join img_dir name).

(** The ledger after a run is the ledger before it, replayed. *)
Definition tracks_ledger {W} (s : state W) (t : list event) (s' : state W) : Prop :=
  already_written_set s' = replay_ledger t (already_written_set s).

(** The same for responses.txt and the buffer. *)
Definition tracks_fp {W} (s : state W) (t : list event) (s' : state W) : Prop :=
  (responses_txt s', buffer s') = replay_fp t (responses_txt s, buffer s).

Definition keeps_fresh {W} (s : state W) (t : list event) (s' : state W) : Prop :=
  tracks_ledger s t s' ∧ fresh_submissions (already_written_set s) t.

Definition keeps_order {W} (s : state W) (t : list event) (s' : state W) : Prop :=
  write_before_mark t.

Definition keeps_durable {W} (s : state W) (t : list event) (s' : state W) : Prop :=
  tracks_fp s t s' ∧ durable_before_mark (responses_txt s, buffer s) t.


(** Names are marked only when the ledger did not hold them. *)
Definition keeps_new {W} (s : state W) (t : list event) (s' : state W) : Prop :=
  tracks_ledger s t s' ∧ ∀ name, name ∈ marked t → name ∉ already_written_set s.


(** The state in which the loop over [os.walk] starts: responses.txt
    opened for append (created empty when missing) and the ledger
    loaded. *)
Definition started {W} (w : W) (responses : option string) : state W :=
  State w (Some (default "" responses)) "" (loaded responses).

(** What [main] prints about responses.txt (lines 168 and 170). *)
Definition greeting (responses : option string) : message :=
  match responses with
  | Some content => MsgExisting (size (load_ledger content))
  | None => MsgStartingNew
  end.

(** The loop of [main] over [os.walk] (lines 176-190). *)
Definition batch {W} (generate_content : W → request → option string * W)
    (print_raises write_raises : W → string → bool)
    (filter_re : string → bool) (model_string : string)
    (image_directory : node) (prompt_string : string) : M W unit :=
  for_each (Os.walk [] image_directory)
    (walk_body generate_content print_raises write_raises filter_re model_string
       image_directory prompt_string).

(** The errors of the set-up of [main], before its loop. *)
Definition config_error (e : exn) : bool :=
  match e with
  | PromptOpenError | ResponsesReadError | ResponsesAppendError => true
  | _ => false
  end.

(** No item was given up in the trace. *)
Definition quiet (t : list event) : Prop := EvPrint MsgMaxRetries ∉ t.

Definition is_print_or_open (e : event) : bool :=
  match e with
  | EvPrint _ | EvImageOpen _ => true
  | _ => false
  end.

(** The trace only prints and opens images. *)
Definition idle (t : list event) : Prop :=
  Forall (λ e, Is_true (is_print_or_open e)) t.

(** The file that stopped a run, when the run was stopped by a file that
    did not open as an image, is not in the ledger [L]. *)
Definition stopper_is_new (r : result unit) (L : gset string) : Prop :=
  ∀ p name, r = Raise (ImageOpenError p) → last p = Some name → name ∉ L.

(** Running [m] again changes nothing and ends as the first run did,
    from any state whose ledger holds the ledger left by a run of [m]
    that gave up on nothing, and does not hold the file that stopped
    that run. *)
Definition idle_after {W} (m : M W unit) : Prop :=
  ∀ s1 r1 s1' t1 s2,
    m s1 = (r1, s1', t1) → quiet t1 →
    already_written_set s1' ⊆ already_written_set s2 →
    stopper_is_new r1 (already_written_set s2) →
    ∃ t2, m s2 = (r1, s2, t2) ∧ idle t2.

(** responses.txt is whole and holds a line for every name of the
    ledger. *)
Definition covered {W} (s : state W) : Prop :=
  buffer s = "" ∧
  ∃ content, responses_txt s = Some content ∧
             Is_true (terminated content) ∧
             already_written_set s ⊆ load_ledger content.

Definition keeps_covered {W} (s : state W) (t : list event) (s' : state W) : Prop :=
  covered s → Forall (λ name, Is_true (key_safe name)) (marked t) → covered s'.




Global Instance request_eq_dec : EqDecision request.
Proof. solve_decision. Defined.

Global Instance message_eq_dec : EqDecision message.
Proof. solve_decision. Defined.

Global Instance event_eq_dec : EqDecision event.
Proof. solve_decision. Defined.

(** ** Concrete trees *)

(** Sub-directory A with one image, and an image directly in the root. *)
Definition root_with_file : node :=
  Dir false [("A", Dir false [("1.jpg", Reg true)]); ("9.jpg", Reg true)].

(** Two sub-directories holding a file of the same name. *)
Definition twins : node :=
  Dir false [("A", Dir false [("1.jpg", Reg true)]);
             ("B", Dir false [("1.jpg", Reg true)])].

(** A flat directory whose second file is not an image. *)
Definition damaged : node :=
  Dir false [("1.jpg", Reg true); ("2.jpg", Reg false); ("3.jpg", Reg true)].


(** A flat directory with an image and a fifo of a matching name. *)
Definition with_fifo : node :=
  Dir false [("1.jpg", Reg true); ("7.jpg", Other)].

(** A flat directory with one image whose name starts with a space. *)
Definition spaced : node := Dir false [(" 1.jpg", Reg true)].

(** A flat directory with one image. *)
Definition single : node := Dir false [("1.jpg", Reg true)].

(** A flat directory with one image whose name holds a comma, and one
    with an image whose name holds a line feed. *)
Definition with_comma : node := Dir false [("a,1.jpg", Reg true)].

Definition with_break : node :=
  Dir false [("a" +:+ String Py.LF "1.jpg", Reg true)].

(** An answer of two lines, the second one starting like the line of
    2.jpg. *)
Definition two_lines : string := "supine" +:+ String Py.LF "2.jpg, prone".

Definition gemini (p : path) : request :=
  Request "gemini-3-pro-preview" "Describe the position." p.

(** ** Tactics *)

(** Splitting a short trace at an event it does not hold is absurd; at
    an event it holds, the split is known. *)
Ltac split_trace :=
  repeat match goal with
         | H : _ = ?pre ++ _ :: _ |- _ =>
             is_var pre; destruct pre as [|? pre]; simplify_eq/=
         end.

(** A decidable proposition about closed terms. *)
Ltac by_computation := apply (bool_decide_unpack _); vm_compute; exact I.

(** ** Further relations and models *)


(** No white space in front. *)
Definition no_lead (s : string) : bool :=
  match s with
  | EmptyString => true
  | String c _ => negb (Py.isspace c)
  end.

(** A line as [Py.splitlines] yields it: no line feed but, possibly, a
    last one. *)
Definition one_line (x : string) : Prop :=
  ∃ body, has_char Py.LF body = false ∧
          (x = body ∨ x = body +:+ String Py.LF "").

(** The file names of the requests of a trace, in order. *)
Definition submitted_names (t : list event) : list string :=
  omap submitted_name (submissions t).

(** A model as [client.models.list()] yields it: its name and the
    actions it supports. *)
Record model_info := ModelInfo {
  model_name : string;
  supported_actions : list string
}.

(** Lines 145-148 of [main]: the names printed under "Available
    models:", in order; one print for each action of a model that is
    "generateContent". *)
Definition prints_of_model (m : model_info) : list string :=
  action ← supported_actions m;
  if decide (action = "generateContent") then [model_name m] else [].

Definition available_models (models : list model_info) : list string :=
  m ← models; prints_of_model m.

Definition supports_generation (m : model_info) : Prop :=
  "generateContent" ∈ supported_actions m.

(** A property of traces that holds of the empty trace and of the
    concatenation of two traces that have it. *)
Definition trace_closed (Q : list event → Prop) : Prop :=
  Q [] ∧ ∀ t1 t2, Q t1 → Q t2 → Q (t1 ++ t2).

(** The trace of [m] has the property [Q], from every state and
    whatever the result. *)
Definition always {W A} (Q : list event → Prop) (m : M W A) : Prop :=
  ∀ s, Q (m s).2.

(** What a run may open and submit: a regular file whose name matches
    the pattern, lying in the root or in a sub-directory of the root. *)
Definition eligible (filter_re : string → bool) (image_directory : node)
    (p : path) : Prop :=
  ∃ img_dir name,
    p = Os.path_join img_dir name ∧
    accepted filter_re image_directory img_dir name = true ∧
    (img_dir = [] ∨ ∃ subdirname, img_dir = [subdirname]).

(** The events a run may emit for the model and the prompt it was
    given. *)
Definition lawful (filter_re : string → bool) (model_string : string)
    (image_directory : node) (prompt_string : string) (e : event) : Prop :=
  match e with
  | EvGenerate r =>
      req_model r = model_string ∧ req_prompt r = prompt_string ∧
      eligible filter_re image_directory (req_image r)
  | EvImageOpen p => eligible filter_re image_directory p
  | _ => True
  end.

(** One request for each name marked, no sleep, no item given up. *)
Definition first_try (t : list event) : Prop :=
  sleeps t = [] ∧ quiet t ∧ length (submissions t) = length (marked t).

Definition is_generate_or_open (e : event) : bool :=
  match e with
  | EvGenerate _ | EvImageOpen _ => true
  | _ => false
  end.

(** * Properties *)

Set Warnings "-clear-no-such-hyp".

Example strip_ex : Py.strip "  a b , c  " = "a b , c".
Proof. reflexivity. Qed.

Example split_ex : Py.split "," "a,b,,c" = ("a", ["b"; ""; "c"]).
Proof. reflexivity. Qed.

Example split_empty_ex : Py.split "," "" = ("", []).
Proof. reflexivity. Qed.

Example sorted_ex :
  Py.sorted ["b"; "A"; "10"; "9"; "a"] = ["10"; "9"; "A"; "a"; "b"].
Proof. vm_compute. reflexivity. Qed.

Example walk_ex :
  Os.walk [] (Dir false [("A", Dir false [("1.jpg", Reg true)]);
                         ("9.jpg", Reg true);
                         ("B", Dir true [])])
  = [([], ["A"; "B"], ["9.jpg"]); (["A"], [], ["1.jpg"])].
Proof. reflexivity. Qed.

Example default_filter_ex :
  default_filter_re <$> ["001.jpg"; "003.png"; "notes.txt"; "a.jpg"; " 1.jpg"; "1.jpeg"]
  = [true; true; false; false; true; false].
Proof. reflexivity. Qed.

(** ** The monad *)

Section Monad.
Context {W : Type}.

Lemma run_bind {A B} (m : M W A) (k : A → M W B) s :
  (m ≫= k) s =
  match m s with
  | (Ok a, s1, t1) => let '(r, s2, t2) := k a s1 in (r, s2, t1 ++ t2)
  | (Raise e, s1, t1) => (Raise e, s1, t1)
  end.
Proof. reflexivity. Qed.

Lemma run_for_each_cons {A} (x : A) l (body : A → M W unit) s :
  for_each (x :: l) body s =
  match body x s with
  | (Ok _, s1, t1) => let '(r, s2, t2) := for_each l body s1 in (r, s2, t1 ++ t2)
  | (Raise e, s1, t1) => (Raise e, s1, t1)
  end.
Proof. reflexivity. Qed.

Lemma with_remote_same (s : state W) : with_remote s (remote s) = s.
Proof. by destruct s. Qed.

Lemma run_image_open image_directory p (s : state W) :
  image_open image_directory p s =
  (match Os.resolve image_directory p with
   | Some (Reg true) => Ok tt
   | _ => Raise (ImageOpenError p)
   end, s, [EvImageOpen p]).
Proof.
  unfold image_open. rewrite run_bind. cbn [emit].
  by destruct (Os.resolve image_directory p) as [[[]| |]|].
Qed.

End Monad.

(** ** The retry loop *)

Section Retry.
Context {W : Type}.
Variable generate_content : W → request → option string * W.
Variable print_raises write_raises : W → string → bool.
Variable model_string : string.

Local Abbreviation retry :=
  (retry_loop generate_content print_raises write_raises model_string).
Local Abbreviation turn :=
  (attempt generate_content print_raises write_raises model_string).
Local Abbreviation failed := (failures generate_content).
Local Abbreviation missed := (misses generate_content print_raises write_raises).

Lemma retry_loop_eq img_filename file_path prompt_string retry_count :
  retry img_filename file_path prompt_string retry_count =
  if decide (retry_count < max_retries) then
    broke ← turn img_filename file_path prompt_string retry_count;
    if (broke : bool) then mret tt
    else retry img_filename file_path prompt_string (retry_count + 1)
  else mret tt.
Proof.
  rewrite retry_loop_unfold_eq. unfold retry_loop_unfold.
  destruct (decide (retry_count < max_retries)); reflexivity.
Qed.

Lemma run_call_generate r (s : state W) :
  call_generate generate_content r s =
  (Ok (generate_content (remote s) r).1,
   with_remote s (generate_content (remote s) r).2,
   [EvGenerate r]).
Proof. unfold call_generate. by destruct (generate_content (remote s) r). Qed.

Lemma run_handler file_path retry_count (s : state W) :
  (print (MsgError file_path (retry_count + 1) max_retries);;
   (if decide (retry_count + 1 < max_retries) then
      print (MsgRetrying (delay_seconds * (retry_count + 1)));;
      sleep (delay_seconds * (retry_count + 1))
    else print MsgMaxRetries);;
   mret false) s
  = (Ok false, s, handled file_path retry_count).
Proof.
  unfold handled. rewrite !run_bind. cbn [print emit].
  case_decide; rewrite ?run_bind; by cbn [print emit sleep mret M_ret app].
Qed.

(** A turn of the loop whose [try] block raises. *)
Lemma run_attempt_failed img_filename file_path prompt_string retry_count s w1 t1 :
  failed_attempt generate_content print_raises write_raises
    (Request model_string prompt_string file_path) img_filename (remote s)
    = Some (w1, t1) →
  turn img_filename file_path prompt_string retry_count s =
    (Ok false, with_remote s w1, t1 ++ handled file_path retry_count).
Proof.
  unfold failed_attempt, attempt, try_except, generate_text. intros Hf.
  rewrite !run_bind, run_call_generate.
  destruct (generate_content (remote s) _) as [[text|] w] eqn:Hgen;
    cbn [fst snd mret M_ret raise].
  - cbn [app]. rewrite run_bind. unfold print_response at 1. cbn [remote with_remote].
    fold (response_csv_line img_filename text).
    destruct (print_raises w _) eqn:Hp.
    + injection Hf as <- <-. by rewrite run_handler.
    + rewrite run_bind. unfold fp_write at 1. cbn [remote with_remote].
      destruct (write_raises w _) eqn:Hw; [|done].
      injection Hf as <- <-. by rewrite run_handler.
  - injection Hf as <- <-. rewrite run_handler. by rewrite app_nil_r.
Qed.

(** A turn of the loop that ends in [break]. *)
Lemma run_attempt_ok img_filename file_path prompt_string retry_count s text w' :
  generate_content (remote s) (Request model_string prompt_string file_path)
    = (Some text, w') →
  print_raises w' (response_csv_line img_filename text) = false →
  write_raises w' (response_csv_line img_filename text) = false →
  turn img_filename file_path prompt_string retry_count s =
    (Ok true, recorded (with_remote s w') img_filename text,
     EvGenerate (Request model_string prompt_string file_path)
     :: recording img_filename text).
Proof.
  unfold attempt, try_except, generate_text. intros Hgen Hp Hw.
  rewrite !run_bind, run_call_generate, Hgen. cbn [fst snd mret M_ret app].
  rewrite run_bind. unfold print_response at 1. cbn [remote with_remote].
  fold (response_csv_line img_filename text). rewrite Hp.
  rewrite run_bind. unfold fp_write at 1. cbn [remote with_remote]. rewrite Hw.
  reflexivity.
Qed.

Lemma failed_attempt_None r img_filename w :
  failed_attempt generate_content print_raises write_raises r img_filename w = None →
  ∃ text w', generate_content w r = (Some text, w') ∧
             print_raises w' (response_csv_line img_filename text) = false ∧
             write_raises w' (response_csv_line img_filename text) = false.
Proof.
  unfold failed_attempt.
  destruct (generate_content w r) as [[text|] w']; [|done].
  destruct (print_raises w' _) eqn:Hp; [done|].
  destruct (write_raises w' _) eqn:Hw; [done|]. by exists text, w'.
Qed.

Lemma failed_attempt_Some r img_filename w text w' :
  generate_content w r = (Some text, w') →
  print_raises w' (response_csv_line img_filename text) = false →
  write_raises w' (response_csv_line img_filename text) = false →
  failed_attempt generate_content print_raises write_raises r img_filename w = None.
Proof. unfold failed_attempt. by intros -> -> ->. Qed.

(** What the loop does, whatever the service, the console and the file
    do: after [k] attempts that raise it records the first answer that
    goes through, or it gives up after the last allowed attempt. *)
Lemma retry_loop_run img_filename file_path prompt_string retry_count s :
  let r := Request model_string prompt_string file_path in
  (∃ k w1 t1 text w',
      retry_count + k < max_retries ∧
      missed r img_filename retry_count k (remote s) = Some (w1, t1) ∧
      generate_content w1 r = (Some text, w') ∧
      print_raises w' (response_csv_line img_filename text) = false ∧
      write_raises w' (response_csv_line img_filename text) = false ∧
      retry img_filename file_path prompt_string retry_count s =
        (Ok tt, recorded (with_remote s w') img_filename text,
         t1 ++ EvGenerate r :: recording img_filename text))
  ∨ (∃ w' t1,
      missed r img_filename retry_count (max_retries - retry_count) (remote s)
        = Some (w', t1) ∧
      retry img_filename file_path prompt_string retry_count s =
        (Ok tt, with_remote s w', t1)).
Proof.
  intros r.
  remember (max_retries - retry_count) as n eqn:Hn.
  revert retry_count s Hn.
  induction n as [|n IH]; intros retry_count s Hn.
  - right. exists (remote s), []. split; [done|].
    rewrite retry_loop_eq. destruct (decide (retry_count < max_retries)); [lia|].
    by rewrite with_remote_same.
  - rewrite retry_loop_eq.
    destruct (decide (retry_count < max_retries)) as [Hlt|]; [|lia].
    rewrite run_bind.
    destruct (failed_attempt generate_content print_raises write_raises r
                img_filename (remote s)) as [[w1 t1]|] eqn:Hfa.
    + rewrite (run_attempt_failed _ _ _ _ _ _ _ Hfa).
      destruct (IH (retry_count + 1) (with_remote s w1)) as
        [(k & w2 & t2 & text & w' & Hk & Hf & Hg & Hp & Hw & Hrun)
        |(w' & t2 & Hf & Hrun)]; [lia| |].
      * left. exists (S k), w2, (t1 ++ handled file_path retry_count ++ t2), text, w'.
        split; [lia|]. split; [by cbn [misses]; rewrite Hfa; cbn in Hf; rewrite Hf|].
        do 3 (split; [done|]).
        rewrite Hrun. by rewrite <- !app_assoc.
      * right. exists w', (t1 ++ handled file_path retry_count ++ t2).
        split; [by cbn [misses]; rewrite Hfa; cbn in Hf; rewrite Hf|].
        rewrite Hrun. by rewrite <- !app_assoc.
    + destruct (failed_attempt_None _ _ _ Hfa) as (text & w' & Hg & Hp & Hw).
      left. exists 0, (remote s), [], text, w'.
      split; [lia|]. split; [done|]. do 3 (split; [done|]).
      by rewrite (run_attempt_ok _ _ _ _ _ _ _ Hg Hp Hw).
Qed.

Lemma misses_cons r img_filename retry_count k w w' t :
  missed r img_filename retry_count (S k) w = Some (w', t) →
  ∃ w1 t1 t2,
    failed_attempt generate_content print_raises write_raises r img_filename w
      = Some (w1, t1) ∧
    missed r img_filename (retry_count + 1) k w1 = Some (w', t2) ∧
    t = t1 ++ handled (req_image r) retry_count ++ t2.
Proof.
  cbn [misses]. intros Hm.
  destruct (failed_attempt _ _ _ r img_filename w) as [[w1 t1]|]; [|done].
  destruct (missed r img_filename (retry_count + 1) k w1) as [[w2 t2]|] eqn:Hk;
    [|done].
  exists w1, t1, t2. split; [done|]. split; congruence.
Qed.

(** Attempts that fail at the call are attempts that raise. *)
Lemma misses_failures r img_filename k : ∀ retry_count w w',
  failed r k w = Some w' →
  missed r img_filename retry_count k w = Some (w', failed_attempts r retry_count k).
Proof.
  induction k as [|k IH]; intros retry_count w w' Hf; simpl in Hf.
  - by injection Hf as <-.
  - cbn [misses failed_attempts]. unfold failed_attempt.
    destruct (generate_content w r) as [[text|] w1]; [done|].
    rewrite (IH (retry_count + 1) w1 w' Hf). reflexivity.
Qed.

(** Of the numbers of attempts that raise before one goes through, the
    loop sees the first. *)
Lemma misses_stop r img_filename k : ∀ retry_count w w1 t1 text w',
  missed r img_filename retry_count k w = Some (w1, t1) →
  generate_content w1 r = (Some text, w') →
  print_raises w' (response_csv_line img_filename text) = false →
  write_raises w' (response_csv_line img_filename text) = false →
  ∀ n, k < n → missed r img_filename retry_count n w = None.
Proof.
  induction k as [|k IH]; intros retry_count w w1 t1 text w' Hm Hg Hp Hw n Hn.
  - injection Hm as <- <-. destruct n as [|n]; [lia|].
    cbn [misses]. by rewrite (failed_attempt_Some _ _ _ _ _ Hg Hp Hw).
  - destruct n as [|n]; [lia|]. cbn [misses] in Hm |- *.
    destruct (failed_attempt _ _ _ r img_filename w) as [[w2 t2]|]; [|done].
    destruct (missed r img_filename (retry_count + 1) k w2) as [[w3 t3]|] eqn:Hk;
      [|done].
    injection Hm as <- <-.
    by rewrite (IH _ _ _ _ _ _ Hk Hg Hp Hw n) by lia.
Qed.

End Retry.

(** ** Relations that compose along the batch *)

Section Respects.
Context {W : Type}.
Variable generate_content : W → request → option string * W.
Variable print_raises write_raises : W → string → bool.
Variable filter_re : string → bool.
Variable model_string : string.
Variable image_directory : node.
Variable R : state W → list event → state W → Prop.
Hypothesis R_comp : compositional R.
Hypothesis R_steps : steps_ok generate_content R.

Local Abbreviation retry := (retry_loop generate_content print_raises write_raises
    model_string).
Local Abbreviation entry :=
  (process_entry generate_content print_raises write_raises
      filter_re model_string image_directory).
Local Abbreviation send :=
  (send_filtered_image_prompts_for_directory
     generate_content print_raises write_raises filter_re model_string image_directory).

Lemma respects_ret {A} (a : A) : respects R (mret a : M W A).
Proof. intros s. apply R_comp. Qed.

Lemma respects_raise {A} e : respects R (raise e : M W A).
Proof. intros s. apply R_comp. Qed.

Lemma respects_bind {A B} (m : M W A) (k : A → M W B) :
  respects R m → (∀ a, respects R (k a)) → respects R (m ≫= k).
Proof.
  intros Hm Hk s. rewrite run_bind.
  specialize (Hm s). destruct (m s) as [[[a|e] s1] t1]; [|done].
  specialize (Hk a s1). destruct (k a s1) as [[r s2] t2].
  by apply (comp_app R R_comp) with s1.
Qed.

Lemma respects_for_each {A} (l : list A) (body : A → M W unit) :
  (∀ x, respects R (body x)) → respects R (for_each l body).
Proof.
  intros Hbody. induction l as [|x l IH]; [apply respects_ret|].
  apply respects_bind; [apply Hbody|done].
Qed.

Lemma respects_print m : respects R (print m : M W unit).
Proof. intros s. apply R_steps. Qed.

Lemma respects_handled file_path retry_count s :
  R s (handled file_path retry_count) s.
Proof.
  unfold handled.
  apply (comp_app R R_comp _ [_] s); [apply R_steps|].
  case_decide; [|apply R_steps].
  apply (comp_app R R_comp _ [_] s [_]); apply R_steps.
Qed.

Lemma respects_failed_attempt r name s w1 t1 :
  submitted_name r = Some name → name ∉ already_written_set s →
  failed_attempt generate_content print_raises write_raises r name (remote s)
    = Some (w1, t1) →
  R s t1 (with_remote s w1).
Proof.
  unfold failed_attempt. intros Hname Hfresh Hfa.
  destruct (generate_content (remote s) r) as [[text|] w].
  - destruct (print_raises w _).
    + injection Hfa as <- <-. by eapply (step_generate _ R R_steps).
    + destruct (write_raises w _); [|done]. injection Hfa as <- <-.
      apply (comp_app R R_comp _ [_] (with_remote s w) [_]);
        [by eapply (step_generate _ R R_steps)|apply R_steps].
  - injection Hfa as <- <-. by eapply (step_generate _ R R_steps).
Qed.

Lemma respects_misses r name k : ∀ retry_count s w' t,
  submitted_name r = Some name → name ∉ already_written_set s →
  misses generate_content print_raises write_raises r name retry_count k (remote s)
    = Some (w', t) →
  R s t (with_remote s w').
Proof.
  induction k as [|k IH]; intros retry_count s w' t Hname Hfresh Hm.
  - injection Hm as <- <-. rewrite with_remote_same. apply R_comp.
  - apply misses_cons in Hm as (w1 & t1 & t2 & Hfa & Hk & ->).
    apply (comp_app R R_comp) with (with_remote s w1);
      [by eapply respects_failed_attempt|].
    apply (comp_app R R_comp _ (handled (req_image r) retry_count)
             (with_remote s w1) t2); [apply respects_handled|].
    by apply (IH (retry_count + 1) (with_remote s w1) w' t2).
Qed.

Lemma respects_retry name img_dir prompt_string retry_count s :
  name ∉ already_written_set s →
  R s (retry name (Os.path_join img_dir name) prompt_string retry_count s).2
      (retry name (Os.path_join img_dir name) prompt_string retry_count s).1.2.
Proof.
  intros Hfresh.
  set (r := Request model_string prompt_string (Os.path_join img_dir name)).
  assert (submitted_name r = Some name) as Hname
    by apply last_snoc.
  destruct (retry_loop_run generate_content print_raises write_raises model_string
              name (Os.path_join img_dir name) prompt_string retry_count s)
    as [(k & w1 & t1 & text & w' & _ & Hf & Hg & _ & _ & ->)|(w' & t1 & Hf & ->)];
    simpl.
  - fold r in Hf, Hg |- *.
    apply (comp_app R R_comp) with (with_remote s w1);
      [by eapply respects_misses|].
    apply (comp_app R R_comp _ [_]) with (with_remote s w').
    + by apply (step_generate _ R R_steps (with_remote s w1) r w' name).
    + apply (step_record _ R R_steps (with_remote s w')); [|done].
      by exists w1, r, w'.
  - by eapply respects_misses.
Qed.

Lemma respects_entry img_dir prompt_string name :
  respects R (entry img_dir prompt_string name).
Proof.
  intros s. unfold process_entry.
  destruct (filter_re name); simpl; [|apply R_comp].
  rewrite run_bind. cbn [set_contains].
  case_bool_decide as Hin; [apply R_steps|].
  destruct (Os.path_isfile image_directory (Os.path_join img_dir name));
    [|apply R_comp].
  rewrite run_bind, run_image_open.
  destruct (Os.resolve image_directory (Os.path_join img_dir name))
    as [[[]| |]|]; simpl; try apply R_steps.
  pose proof (respects_retry name img_dir prompt_string 0 s Hin) as Hr.
  destruct (retry name (Os.path_join img_dir name) prompt_string 0 s)
    as [[res s'] t].
  apply (comp_app R R_comp _ [_]) with s; [apply R_steps|done].
Qed.

Lemma respects_send img_dir prompt_string :
  respects R (send img_dir prompt_string).
Proof.
  unfold send_filtered_image_prompts_for_directory.
  apply respects_bind.
  - unfold listdir.
    destruct (Os.resolve image_directory img_dir) as [[]|];
      (apply respects_ret || apply respects_raise).
  - intros names. apply respects_for_each. intros name. apply respects_entry.
Qed.

Lemma respects_walk_body prompt_string e :
  respects R (walk_body generate_content print_raises write_raises
      filter_re model_string image_directory
                prompt_string e).
Proof.
  destruct e as [[dirpath dirnames] filenames]. unfold walk_body.
  destruct dirnames as [|d ds]; [apply respects_send|].
  apply respects_for_each. intros subdirname.
  apply respects_bind; [apply respects_print|]. intros _. apply respects_send.
Qed.

(** The loop of [main] over [os.walk]. *)
Lemma respects_batch prompt_string :
  respects R (for_each (Os.walk [] image_directory)
                (walk_body generate_content print_raises write_raises
                    filter_re model_string
                   image_directory prompt_string)).
Proof. apply respects_for_each. intros e. apply respects_walk_body. Qed.

End Respects.

(** ** Ledger, file and order along a run *)

Lemma app_split_at {A} (t1 t2 pre post : list A) e :
  t1 ++ t2 = pre ++ e :: post →
  (∃ post1, t1 = pre ++ e :: post1 ∧ post = post1 ++ t2)
  ∨ (∃ pre2, pre = t1 ++ pre2 ∧ t2 = pre2 ++ e :: post).
Proof.
  intros [(k & -> & Hk)|(k & -> & ->)]%app_eq_inv.
  - destruct k as [|e' k]; simplify_eq/=.
    + right. exists []. by rewrite !app_nil_r.
    + left. by exists k.
  - right. by exists k.
Qed.

Lemma string_app_assoc (a b c : string) : (a +:+ b) +:+ c = a +:+ (b +:+ c).
Proof.
  induction a as [|x a IH]; [done|].
  change (String x ((a +:+ b) +:+ c) = String x (a +:+ (b +:+ c))).
  by rewrite IH.
Qed.

Lemma replay_ledger_app t1 t2 L :
  replay_ledger (t1 ++ t2) L = replay_ledger t2 (replay_ledger t1 L).
Proof. apply foldl_app. Qed.

Lemma replay_fp_app t1 t2 fp :
  replay_fp (t1 ++ t2) fp = replay_fp t2 (replay_fp t1 fp).
Proof. apply foldl_app. Qed.

Lemma replay_ledger_marked t L :
  replay_ledger t L = list_to_set (marked t) ∪ L.
Proof.
  revert L. induction t as [|e t IH]; intros L; [set_solver|].
  change (replay_ledger (e :: t) L)
    with (replay_ledger t (match e with EvSetAdd name => {[name]} ∪ L | _ => L end)).
  rewrite IH. destruct e; simpl; set_solver.
Qed.

Lemma replay_ledger_mono t L : L ⊆ replay_ledger t L.
Proof. rewrite replay_ledger_marked. set_solver. Qed.

Section Relations.
Context {W : Type}.
Variable generate_content : W → request → option string * W.

Lemma tracks_ledger_comp : compositional (@tracks_ledger W).
Proof.
  split; [done|]. unfold tracks_ledger. intros s t1 s1 t2 s2 H1 H2.
  by rewrite replay_ledger_app, <- H1.
Qed.

Lemma tracks_ledger_steps : steps_ok generate_content (@tracks_ledger W).
Proof. by split. Qed.

Lemma tracks_fp_comp : compositional (@tracks_fp W).
Proof.
  split; [done|]. unfold tracks_fp. intros s t1 s1 t2 s2 H1 H2.
  by rewrite replay_fp_app, <- H1.
Qed.

Lemma tracks_fp_steps : steps_ok generate_content (@tracks_fp W).
Proof. by split. Qed.

Lemma keeps_fresh_comp : compositional (@keeps_fresh W).
Proof.
  split.
  - intros s. split; [done|]. intros pre r post name H. by destruct pre.
  - intros s t1 s1 t2 s2 [HL1 Hf1] [HL2 Hf2]. split.
    + by apply (comp_app _ tracks_ledger_comp) with s1.
    + intros pre r post name [(post1 & -> & ->)|(pre2 & -> & ->)]%app_split_at Hn.
      * by eapply Hf1.
      * rewrite replay_ledger_app, <- HL1. by eapply Hf2.
Qed.

Lemma keeps_fresh_steps : steps_ok generate_content (@keeps_fresh W).
Proof.
  split.
  - intros s r w name Hn Hfresh. split; [done|].
    intros pre r' post name' H Hn'. split_trace. by simplify_eq.
  - intros s m. split; [done|]. intros pre r post name H. split_trace.
  - intros s n. split; [done|]. intros pre r post name H. split_trace.
  - intros s p. split; [done|]. intros pre r post name H. split_trace.
  - intros s name text _ _. split; [done|].
    intros pre r post name' H. unfold recording in H. split_trace.
Qed.

Lemma keeps_order_comp : compositional (@keeps_order W).
Proof.
  split.
  - intros s pre name post H. by destruct pre.
  - intros s t1 s1 t2 s2 H1 H2 pre name post
      [(post1 & -> & ->)|(pre2 & -> & ->)]%app_split_at.
    + by eapply H1.
    + destruct (H2 pre2 name post eq_refl) as (pre' & text & ->).
      exists (t1 ++ pre'), text. by rewrite app_assoc.
Qed.

Lemma keeps_order_steps : steps_ok generate_content (@keeps_order W).
Proof.
  split.
  - intros s r w name _ _ pre name' post H. split_trace.
  - intros s m pre name' post H. split_trace.
  - intros s n pre name' post H. split_trace.
  - intros s p pre name' post H. split_trace.
  - intros s name text _ _ pre name' post H. unfold recording in H.
    split_trace.
    by exists [EvPrint (MsgResponse (response_csv_line name' text))], text.
Qed.

Lemma keeps_durable_comp : compositional (@keeps_durable W).
Proof.
  split.
  - intros s. split; [done|]. intros pre name post H. by destruct pre.
  - intros s t1 s1 t2 s2 [HF1 Hd1] [HF2 Hd2]. split.
    + by apply (comp_app _ tracks_fp_comp) with s1.
    + intros pre name post [(post1 & -> & ->)|(pre2 & -> & ->)]%app_split_at.
      * by eapply Hd1.
      * rewrite replay_fp_app, <- HF1. by eapply Hd2.
Qed.

Lemma keeps_durable_steps : steps_ok generate_content (@keeps_durable W).
Proof.
  split.
  - intros s r w name _ _. split; [done|]. intros pre name' post H. split_trace.
  - intros s m. split; [done|]. intros pre name' post H. split_trace.
  - intros s n. split; [done|]. intros pre name' post H. split_trace.
  - intros s p. split; [done|]. intros pre name' post H. split_trace.
  - intros s name text _ _. split; [done|].
    intros pre name' post H. unfold recording in H. split_trace.
    exists (default "" (responses_txt s) +:+ buffer s), text.
    cbn. by rewrite string_app_assoc.
Qed.

End Relations.

Section MoreRelations.
Context {W : Type}.
Variable generate_content : W → request → option string * W.

Lemma marked_app t1 t2 : marked (t1 ++ t2) = marked t1 ++ marked t2.
Proof. apply omap_app. Qed.

Lemma written_app t1 t2 : written (t1 ++ t2) = written t1 ++ written t2.
Proof. apply omap_app. Qed.

Lemma submissions_app t1 t2 :
  submissions (t1 ++ t2) = submissions t1 ++ submissions t2.
Proof. apply omap_app. Qed.

Lemma sleeps_app t1 t2 : sleeps (t1 ++ t2) = sleeps t1 ++ sleeps t2.
Proof. apply omap_app. Qed.

Lemma keeps_new_comp : compositional (@keeps_new W).
Proof.
  split.
  - intros s. split; [done|]. intros name H. by apply elem_of_nil in H.
  - intros s t1 s1 t2 s2 [HL1 Hn1] [HL2 Hn2]. split.
    + by apply (comp_app _ tracks_ledger_comp) with s1.
    + intros name. rewrite marked_app, elem_of_app. intros [H|H]; [by apply Hn1|].
      intros Hin. apply (Hn2 name H). rewrite HL1.
      by apply replay_ledger_mono.
Qed.

Lemma keeps_new_steps : steps_ok generate_content (@keeps_new W).
Proof.
  split; try (intros; split; [done|]; intros name' H'; by apply elem_of_nil in H').
  intros s name text _ Hfresh. split; [done|].
  intros name' H'. cbn in H'. by apply list_elem_of_singleton in H' as ->.
Qed.



End MoreRelations.

(** ** [main] up to its loop *)

Section Main.
Context {W : Type}.
Variable generate_content : W → request → option string * W.
Variable print_raises write_raises : W → string → bool.
Variable filter_re : string → bool.
Variable model_string : string.
Variable image_directory : node.

Lemma main_run prompt_text_txt responses_access w responses :
  main generate_content print_raises write_raises filter_re model_string image_directory
       prompt_text_txt responses_access (initial w responses) =
  match prompt_text_txt with
  | None => (Raise PromptOpenError, initial w responses, [])
  | Some prompt_string =>
      if bool_decide (is_Some responses) && negb (can_read responses_access)
      then (Raise ResponsesReadError, initial w responses, [])
      else if can_append responses_access then
        let '(r, s', t) :=
          batch generate_content print_raises write_raises
              filter_re model_string image_directory
                prompt_string (started w responses) in
        (r, s', EvPrint (greeting responses) :: t)
      else (Raise ResponsesAppendError,
            State w responses "" (loaded responses),
            [EvPrint (greeting responses)])
  end.
Proof.
  unfold main. rewrite run_bind. unfold read_prompt.
  destruct prompt_text_txt as [prompt_string|]; [|done].
  cbn [mret M_ret]. rewrite run_bind. unfold load_already_written.
  destruct responses as [content|], responses_access as [[] []]; cbn;
    try done; unfold batch, started; cbn;
    rewrite ?run_bind; cbn; try done;
    by destruct (for_each _ _ _) as [[r s'] t].
Qed.

End Main.

Section Driver.
Context {W : Type}.
Variable generate_content : W → request → option string * W.
Variable print_raises write_raises : W → string → bool.
Variable filter_re : string → bool.
Variable model_string : string.
Variable image_directory : node.
Variable prompt_text_txt : option string.
Variable responses_access : access.

Local Abbreviation run_main w responses :=
  (main generate_content print_raises write_raises
      filter_re model_string image_directory
        prompt_text_txt responses_access (initial w responses)).

(** Either the set-up fails, with at most the greeting printed and the
    ledger as loaded so far, or the whole run satisfies [R] from the
    state in which the loop starts. *)
Lemma main_respects R w responses :
  compositional R → steps_ok generate_content R →
  let '(r, s', t) := run_main w responses in
  (∃ e, r = Raise e ∧ Is_true (config_error e) ∧ remote s' = w ∧
        responses_txt s' = responses ∧ buffer s' = "" ∧
        ((t = [] ∧ already_written_set s' = ∅)
         ∨ (t = [EvPrint (greeting responses)] ∧
            already_written_set s' = loaded responses)))
  ∨ R (started w responses) t s'.
Proof.
  intros Rc Rs. rewrite main_run.
  destruct prompt_text_txt as [prompt_string|];
    [|left; exists PromptOpenError; naive_solver].
  destruct (bool_decide (is_Some responses) && negb (can_read responses_access));
    [left; exists ResponsesReadError; naive_solver|].
  destruct (can_append responses_access);
    [|left; exists ResponsesAppendError; naive_solver].
  pose proof (respects_batch generate_content print_raises write_raises
      filter_re model_string
                image_directory R Rc Rs prompt_string (started w responses)) as H.
  unfold batch.
  destruct (for_each _ _ _) as [[r s'] t]. right.
  apply (comp_app R Rc _ [_] (started w responses)); [apply Rs|done].
Qed.

(** C2.  In every run of [main], whatever the service answers and
    however the run ends, each addition of a file name to
    [already_written_set] comes immediately after the write of the line
    of that file to [responses_fp] and the flush of that write; and at
    that moment the line is the end of responses.txt on disk, with
    nothing left in the buffer.  The ledger is never marked before the
    durable write. *)
Theorem write_before_mark_in_every_run w responses :
  let '(r, s', t) := run_main w responses in
  write_before_mark t ∧
  durable_before_mark (Some (default "" responses), "") t.
Proof.
  pose proof (main_respects keeps_order w responses
                keeps_order_comp (keeps_order_steps generate_content)) as Ho.
  pose proof (main_respects keeps_durable w responses
                keeps_durable_comp (keeps_durable_steps generate_content)) as Hd.
  destruct (run_main w responses) as [[r s'] t]. split.
  - destruct Ho as [(e & _ & _ & _ & _ & _ & [[-> _]|[-> _]])|Ho]; [| |done];
      intros pre name post H; split_trace.
  - destruct Hd as [(e & _ & _ & _ & _ & _ & [[-> _]|[-> _]])|[_ Hd]]; [| |done];
      intros pre name post H; split_trace.
Qed.


End Driver.

(** ** The retry controller *)

Section RetryClaims.
Context {W : Type}.
Variable generate_content : W → request → option string * W.
Variable print_raises write_raises : W → string → bool.
Variable model_string : string.

Local Abbreviation retry :=
  (retry_loop generate_content print_raises write_raises model_string).
Local Abbreviation failed := (failures generate_content).
Local Abbreviation missed := (misses generate_content print_raises write_raises).

Lemma submissions_failed_attempts r retry_count k :
  submissions (failed_attempts r retry_count k) = replicate k r.
Proof.
  revert retry_count. induction k as [|k IH]; intros retry_count; [done|].
  cbn [failed_attempts]. rewrite !submissions_app, IH.
  by case_decide.
Qed.

Lemma sleeps_failed_attempts r retry_count k :
  retry_count + k < max_retries →
  sleeps (failed_attempts r retry_count k)
  = (λ i, delay_seconds * i) <$> seq (retry_count + 1) k.
Proof.
  revert retry_count. induction k as [|k IH]; intros retry_count Hlt; [done|].
  cbn [failed_attempts]. rewrite !sleeps_app, IH by lia.
  rewrite decide_True by lia. cbn [seq fmap list_fmap].
  by replace (S (retry_count + 1)) with (retry_count + 1 + 1) by lia.
Qed.

Lemma written_failed_attempts r retry_count k :
  written (failed_attempts r retry_count k) = [].
Proof.
  revert retry_count. induction k as [|k IH]; intros retry_count; [done|].
  cbn [failed_attempts]. rewrite !written_app, IH. by case_decide.
Qed.

Lemma marked_failed_attempts r retry_count k :
  marked (failed_attempts r retry_count k) = [].
Proof.
  revert retry_count. induction k as [|k IH]; intros retry_count; [done|].
  cbn [failed_attempts]. rewrite !marked_app, IH. by case_decide.
Qed.

Lemma submissions_handled file_path retry_count :
  submissions (handled file_path retry_count) = [].
Proof. unfold handled. by case_decide. Qed.

Lemma written_handled file_path retry_count :
  written (handled file_path retry_count) = [].
Proof. unfold handled. by case_decide. Qed.

Lemma marked_handled file_path retry_count :
  marked (handled file_path retry_count) = [].
Proof. unfold handled. by case_decide. Qed.

(** What one attempt that raises leaves in the trace: its request and,
    at most, the print of the answer. *)
Lemma failed_attempt_events r name w w1 t1 :
  failed_attempt generate_content print_raises write_raises r name w = Some (w1, t1) →
  submissions t1 = [r] ∧ written t1 = [] ∧ marked t1 = [] ∧ sleeps t1 = [] ∧
  EvPrint MsgMaxRetries ∉ t1.
Proof.
  unfold failed_attempt. intros Hfa.
  destruct (generate_content w r) as [[text|] w2];
    [destruct (print_raises w2 _); [|destruct (write_raises w2 _); [|done]]|];
    injection Hfa as <- <-; repeat split; try done; set_solver.
Qed.

Lemma misses_events r name k : ∀ retry_count w w' t,
  missed r name retry_count k w = Some (w', t) →
  submissions t = replicate k r ∧ written t = [] ∧ marked t = [].
Proof.
  induction k as [|k IH]; intros retry_count w w' t Hm.
  - by injection Hm as <- <-.
  - apply misses_cons in Hm as (w1 & t1 & t2 & Hfa & Hk & ->).
    destruct (failed_attempt_events _ _ _ _ _ Hfa) as (Hs & Hw & Hmk & _).
    destruct (IH _ _ _ _ Hk) as (Hs2 & Hw2 & Hmk2).
    rewrite !submissions_app, !written_app, !marked_app.
    rewrite Hs, Hw, Hmk, Hs2, Hw2, Hmk2.
    by rewrite submissions_handled, written_handled, marked_handled.
Qed.


Lemma failures_always r :
  (∀ w, (generate_content w r).1 = None) →
  ∀ k w, ∃ w', failed r k w = Some w'.
Proof.
  intros Hnever k. induction k as [|k IH]; intros w; [by exists w|].
  simpl. specialize (Hnever w).
  destruct (generate_content w r) as [[text|] w1]; [done|]. apply IH.
Qed.

(** C3 (as amended).  When the service fails [K] times in a row on the
    request and then answers, with [K < max_retries] ([max_retries = 4],
    [delay_seconds = 1]), and the line of that answer is printed and
    written without an exception (the flush of a written line raises
    nothing here), the retry loop ends normally after
    exactly [K + 1] calls of the service, all on that request; it sleeps
    [delay_seconds * 1, ..., delay_seconds * K] seconds, one sleep after
    each failed call and before the next call; and it records the
    answer: the line is written, flushed and the name marked. *)
Theorem retry_succeeds_after_failures
    img_filename file_path prompt_string s K wK text w' :
  let r := Request model_string prompt_string file_path in
  K < max_retries →
  failed r K (remote s) = Some wK →
  generate_content wK r = (Some text, w') →
  print_raises w' (response_csv_line img_filename text) = false →
  write_raises w' (response_csv_line img_filename text) = false →
  let '(res, s', t) := retry img_filename file_path prompt_string 0 s in
  res = Ok tt ∧
  s' = recorded (with_remote s w') img_filename text ∧
  t = failed_attempts r 0 K ++ EvGenerate r :: recording img_filename text ∧
  submissions t = replicate (K + 1) r ∧
  sleeps t = (λ i, delay_seconds * i) <$> seq 1 K.
Proof.
  intros r HK Hfail Hgen Hprint Hwrite.
  pose proof (misses_failures generate_content print_raises write_raises
                r img_filename K 0 _ _ Hfail) as HmK.
  pose proof (retry_loop_run generate_content print_raises write_raises
      model_string img_filename
                file_path prompt_string 0 s) as Hrun.
  cbv zeta in Hrun. fold r in Hrun.
  destruct Hrun as [(k & w1 & t1 & text1 & w1' & Hk & Hf & Hg & Hp & Hw & ->)
                   |(w1 & t1 & Hf & _)].
  - assert (k = K) as ->.
    { destruct (decide (k < K)) as [Hlt|].
      { by rewrite (misses_stop _ _ _ _ _ _ _ _ _ _ _ _ Hf Hg Hp Hw K Hlt) in HmK. }
      destruct (decide (K < k)) as [Hlt|]; [|lia].
      by rewrite (misses_stop _ _ _ _ _ _ _ _ _ _ _ _ HmK Hgen Hprint Hwrite k Hlt)
        in Hf. }
    rewrite Hf in HmK. injection HmK as -> ->.
    rewrite Hg in Hgen. injection Hgen as -> ->.
    split; [done|]. split; [done|]. split; [done|].
    rewrite submissions_app, sleeps_app, submissions_failed_attempts,
      sleeps_failed_attempts by lia.
    cbn. rewrite app_nil_r. split; [|done].
    replace (K + 1) with (S K) by lia. by rewrite replicate_S_end.
  - replace (max_retries - 0) with max_retries in Hf by lia.
    by rewrite (misses_stop _ _ _ _ _ _ _ _ _ _ _ _ HmK Hgen Hprint Hwrite
                  max_retries HK) in Hf.
Qed.

(** C4.  When the service fails on every call for the request, the
    retry loop calls it exactly [max_retries] (4) times and then gives
    up, ending normally: nothing is written to responses.txt, nothing is
    left in the buffer that was not there, and the file name is not
    added to the ledger. *)
Theorem retry_gives_up_when_always_failing
    img_filename file_path prompt_string s :
  let r := Request model_string prompt_string file_path in
  (∀ w, (generate_content w r).1 = None) →
  let '(res, s', t) := retry img_filename file_path prompt_string 0 s in
  res = Ok tt ∧
  submissions t = replicate max_retries r ∧
  length (submissions t) = 4 ∧
  written t = [] ∧ marked t = [] ∧
  last t = Some (EvPrint MsgMaxRetries) ∧
  responses_txt s' = responses_txt s ∧
  buffer s' = buffer s ∧
  already_written_set s' = already_written_set s.
Proof.
  intros r Hnever.
  pose proof (retry_loop_run generate_content print_raises write_raises
      model_string img_filename
                file_path prompt_string 0 s) as Hrun.
  cbv zeta in Hrun. fold r in Hrun.
  destruct Hrun as [(k & w1 & t1 & text1 & w1' & Hk & Hf & Hg & _)
                   |(w1 & t1 & Hf & ->)].
  - specialize (Hnever w1). by rewrite Hg in Hnever.
  - destruct (failures_always r Hnever (max_retries - 0) (remote s)) as [w2 Hf2].
    rewrite (misses_failures generate_content print_raises write_raises
               r img_filename _ 0 _ _ Hf2) in Hf.
    assert (t1 = failed_attempts r 0 (max_retries - 0) ∧ w1 = w2) as [-> ->]
      by (split; congruence).
    rewrite submissions_failed_attempts, written_failed_attempts,
      marked_failed_attempts.
    repeat split; reflexivity.
Qed.

End RetryClaims.

Example universal_newlines_ex :
  Py.universal_newlines
    (String "a" (String Py.CR (String Py.LF (String "b" (String Py.CR
       (String Py.CR (String Py.LF (String "c" (String Py.LF ""))))))))) 
  = String "a" (String Py.LF (String "b" (String Py.LF (String Py.LF
       (String "c" (String Py.LF "")))))).
Proof. reflexivity. Qed.

Example file_lines_ex :
  Py.file_lines ("1.jpg, prone" +:+ String Py.LF "" +:+ "2.jpg, supine")
  = ["1.jpg, prone" +:+ String Py.LF ""; "2.jpg, supine"].
Proof. reflexivity. Qed.

(** ** The line format: writing, then loading *)

Section Lines.

Lemma app_String c a b : String c a +:+ b = String c (a +:+ b).
Proof. reflexivity. Qed.

Lemma app_empty_l b : "" +:+ b = b.
Proof. reflexivity. Qed.

Lemma ends_with_lf_cons c a :
  a ≠ "" → ends_with_lf (String c a) = ends_with_lf a.
Proof. by destruct a. Qed.

Lemma ends_with_lf_nonempty a : Is_true (ends_with_lf a) → a ≠ "".
Proof. by destruct a. Qed.

Lemma ends_with_lf_app a b :
  Is_true (ends_with_lf b) → Is_true (ends_with_lf (a +:+ b)).
Proof.
  intros Hb. induction a as [|c a IH]; [done|].
  rewrite app_String, ends_with_lf_cons; [done|].
  by apply ends_with_lf_nonempty.
Qed.

(** Translating a text that ends in a line feed leaves a text that is
    empty or ends in a line feed, and no carriage return pending. *)
Lemma translate_ends_with_lf a : ∀ pending_cr,
  Is_true (ends_with_lf a) →
  Is_true (terminated (Py.translate_newlines pending_cr a)) ∧
  (pending_cr = false →
   Is_true (ends_with_lf (Py.translate_newlines pending_cr a))).
Proof.
  induction a as [|c a IH]; intros pending_cr Ha; [done|].
  destruct (decide (a = "")) as [->|Hne].
  - simpl in Ha. apply Is_true_true, Ascii.eqb_eq in Ha as ->.
    by destruct pending_cr.
  - rewrite ends_with_lf_cons in Ha by done.
    cbn [Py.translate_newlines].
    destruct (Ascii.eqb c Py.CR).
    + destruct (IH true Ha) as [Ht _].
      remember (Py.translate_newlines true a) as u eqn:Hu'. clear Hu'.
      assert (Is_true (ends_with_lf (String Py.LF u))) as Hu.
      { destruct u as [|x u]; [done|]. by rewrite ends_with_lf_cons. }
      split; [exact Hu|done].
    + destruct (IH false Ha) as [_ He]. specialize (He eq_refl).
      remember (Py.translate_newlines false a) as u eqn:Hu'. clear Hu'.
      pose proof (ends_with_lf_nonempty _ He) as Hu.
      destruct (Ascii.eqb c Py.LF && pending_cr).
      * split; [|done]. unfold terminated. by destruct u.
      * assert (Is_true (ends_with_lf (String c u))) as Hcu
          by by rewrite ends_with_lf_cons.
        split; [exact Hcu|done].
Qed.

Lemma translate_app a b : ∀ pending_cr,
  Is_true (ends_with_lf a) →
  Py.translate_newlines pending_cr (a +:+ b)
  = Py.translate_newlines pending_cr a +:+ Py.translate_newlines false b.
Proof.
  induction a as [|c a IH]; intros pending_cr Ha; [done|].
  destruct (decide (a = "")) as [->|Hne].
  - simpl in Ha. apply Is_true_true, Ascii.eqb_eq in Ha as ->.
    rewrite app_String, app_empty_l. cbn [Py.translate_newlines].
    by destruct pending_cr.
  - rewrite ends_with_lf_cons in Ha by done.
    rewrite app_String. cbn [Py.translate_newlines].
    destruct (Ascii.eqb c Py.CR); [by rewrite IH|].
    destruct (Ascii.eqb c Py.LF && pending_cr); by rewrite IH.
Qed.


Lemma splitlines_nonempty s : s ≠ "" → Py.splitlines s ≠ [].
Proof.
  destruct s as [|c s]; [done|]. intros _. cbn [Py.splitlines].
  destruct (Ascii.eqb c Py.LF); [done|]. by destruct (Py.splitlines s).
Qed.

Lemma splitlines_app a b :
  Is_true (terminated a) →
  Py.splitlines (a +:+ b) = Py.splitlines a ++ Py.splitlines b.
Proof.
  induction a as [|c a IH]; [done|]. intros Ha.
  rewrite app_String. cbn [Py.splitlines].
  destruct (Ascii.eqb c Py.LF) eqn:Hc.
  - rewrite IH; [done|]. destruct a; [done|].
    unfold terminated in Ha. by rewrite ends_with_lf_cons in Ha.
  - destruct a as [|c' a']; [by simpl in Ha; rewrite Hc in Ha|].
    unfold terminated in Ha. rewrite ends_with_lf_cons in Ha by done.
    rewrite IH by done.
    pose proof (splitlines_nonempty (String c' a')) as Hne.
    destruct (Py.splitlines (String c' a')); [by destruct Hne|done].
Qed.



Lemma lstrip_app name rest :
  name ≠ "" → Py.lstrip name = name → Py.lstrip (name +:+ rest) = name +:+ rest.
Proof.
  destruct name as [|c name]; [done|]. intros _ H. rewrite app_String.
  cbn [Py.lstrip] in *. destruct (Py.isspace c); [|done].
  exfalso. assert (∀ s, String.length (Py.lstrip s) ≤ String.length s) as Hlen.
  { intros s. induction s as [|x s IHs]; [done|]. cbn [Py.lstrip].
    destruct (Py.isspace x); simpl; lia. }
  specialize (Hlen name). rewrite H in Hlen. simpl in Hlen. lia.
Qed.

Lemma rstrip_app a b :
  Py.rstrip b ≠ "" → Py.rstrip (a +:+ b) = a +:+ Py.rstrip b.
Proof.
  intros Hb. induction a as [|c a IH]; [done|].
  rewrite !app_String. cbn [Py.rstrip]. rewrite IH.
  destruct (a +:+ Py.rstrip b) eqn:E; [|done].
  destruct a; [by rewrite app_empty_l in E|done].
Qed.

Lemma rstrip_comma s : ∃ r, Py.rstrip (String ","%char s) = String ","%char r.
Proof. cbn [Py.rstrip]. destruct (Py.rstrip s); eauto. Qed.

Lemma split_comma_prefix name r :
  has_char ","%char name = false →
  (Py.split ","%char (name +:+ String ","%char r)).1 = name.
Proof.
  induction name as [|c name IH].
  - intros _. rewrite app_empty_l. cbn. by destruct (Py.split _ r).
  - cbn [has_char]. intros [Hc Hn]%orb_false_elim. rewrite app_String.
    cbn [Py.split]. specialize (IH Hn).
    destruct (Py.split _ (name +:+ _)) as [hd tl]. rewrite Hc. simpl in *.
    by rewrite IH.
Qed.



Lemma load_ledger_keys content :
  load_ledger content = list_to_set (line_key <$> Py.file_lines content).
Proof.
  unfold load_ledger. generalize (Py.file_lines content). intros l.
  assert (∀ L : gset string,
            foldl (λ acc line, {[line_key line]} ∪ acc) L l
            = list_to_set (line_key <$> l) ∪ L) as H.
  { induction l as [|x l IH]; intros L; [set_solver|].
    cbn [foldl]. rewrite IH. set_solver. }
  rewrite H. set_solver.
Qed.

Lemma file_lines_app a b :
  Is_true (terminated a) →
  Py.file_lines (a +:+ b) = Py.file_lines a ++ Py.file_lines b.
Proof.
  intros Ha. destruct a as [|c a]; [done|].
  unfold terminated in Ha. unfold Py.file_lines, Py.universal_newlines.
  rewrite translate_app by done. apply splitlines_app.
  by apply translate_ends_with_lf.
Qed.

(** A text without carriage return goes through the translation as it
    is, whatever follows it. *)
Lemma translate_prefix a b :
  has_char Py.CR a = false →
  Py.translate_newlines false (a +:+ b) = a +:+ Py.translate_newlines false b.
Proof.
  induction a as [|c a IH]; [done|]. cbn [has_char].
  intros [Hc Ha]%orb_false_elim. rewrite !app_String.
  cbn [Py.translate_newlines]. rewrite Hc, andb_false_r. by rewrite IH.
Qed.

(** A text without line feed joins the first line of what follows it. *)
Lemma splitlines_prefix a u :
  has_char Py.LF a = false → u ≠ "" →
  ∃ l ls, Py.splitlines u = l :: ls ∧ Py.splitlines (a +:+ u) = (a +:+ l) :: ls.
Proof.
  intros Ha Hu. induction a as [|c a IH].
  - pose proof (splitlines_nonempty u Hu) as Hne.
    destruct (Py.splitlines u) as [|l ls] eqn:E; [done|]. by exists l, ls.
  - cbn [has_char] in Ha. apply orb_false_elim in Ha as [Hc Ha].
    destruct (IH Ha) as (l & ls & Hl & Hal). exists l, ls. split; [done|].
    rewrite app_String. cbn [Py.splitlines]. by rewrite Hc, Hal.
Qed.

(** The key of a line that starts with a key-safe name and a comma is
    that name, whatever follows. *)
Lemma line_key_prefix name rest :
  Is_true (key_safe name) → line_key (name +:+ String ","%char rest) = name.
Proof.
  unfold key_safe. intros [[Hcomma _]%andb_True Hl%bool_decide_unpack]%andb_True.
  apply negb_True, Is_true_false in Hcomma.
  unfold line_key, Py.strip.
  destruct (rstrip_comma rest) as [r Hr].
  assert (Py.lstrip (name +:+ String ","%char rest) = name +:+ String ","%char rest)
    as ->.
  { destruct (decide (name = "")) as [->|Hne]; [done|]. by apply lstrip_app. }
  rewrite rstrip_app by by rewrite Hr.
  rewrite Hr. by apply split_comma_prefix.
Qed.

(** The first line of the line of a file starts with its name and a
    comma, whatever the answer. *)
Lemma file_lines_response name text :
  Is_true (key_safe name) →
  ∃ rest ls,
    Py.file_lines (response_csv_line name text)
    = (name +:+ String ","%char rest) :: ls.
Proof.
  unfold key_safe. intros [[_ Hs]%andb_True _]%andb_True.
  unfold single_line in Hs.
  apply andb_True in Hs as [Hlf%negb_True%Is_true_false Hcr%negb_True%Is_true_false].
  unfold Py.file_lines, Py.universal_newlines, response_csv_line.
  rewrite translate_prefix by done.
  destruct (splitlines_prefix name
              (Py.translate_newlines false (", " +:+ text +:+ String Py.LF ""))
              Hlf) as (l & ls & Hl & ->); [done|].
  change (", " +:+ text +:+ String Py.LF "")
    with (String ","%char (" " +:+ text +:+ String Py.LF "")) in Hl.
  cbn [Py.translate_newlines] in Hl.
  change (Ascii.eqb ","%char Py.CR) with false in Hl.
  change (Ascii.eqb ","%char Py.LF) with false in Hl.
  cbn [andb Py.splitlines] in Hl.
  change (Ascii.eqb ","%char Py.LF) with false in Hl.
  destruct (Py.splitlines _) as [|l' ls']; simplify_eq; eauto.
Qed.

(** Appending the line of a file to a whole store adds the name of the
    file to what the loader reads, whatever the answer. *)
Lemma load_ledger_covers content name text :
  Is_true (terminated content) →
  Is_true (key_safe name) →
  {[name]} ∪ load_ledger content
  ⊆ load_ledger (content +:+ response_csv_line name text).
Proof.
  intros Hc Hn.
  destruct (file_lines_response name text Hn) as (rest & ls & Hline).
  rewrite !load_ledger_keys, file_lines_app, Hline, fmap_app by done.
  cbn [fmap list_fmap]. rewrite (line_key_prefix name rest Hn).
  rewrite list_to_set_app_L. set_solver.
Qed.

End Lines.

(** ** The ledger and responses.txt stay in step *)

Section Sync.
Context {W : Type}.
Variable generate_content : W → request → option string * W.
Hypothesis single_line_answers :
  ∀ text, produced generate_content text → Is_true (single_line text).

Lemma terminated_app_response a name text :
  Is_true (terminated (a +:+ response_csv_line name text)).
Proof.
  assert (Is_true (ends_with_lf (a +:+ response_csv_line name text))) as H.
  { unfold response_csv_line. by do 4 apply ends_with_lf_app. }
  pose proof (ends_with_lf_nonempty _ H). unfold terminated.
  by destruct (a +:+ _).
Qed.



End Sync.

Section Cover.
Context {W : Type}.
Variable generate_content : W → request → option string * W.

Lemma keeps_covered_comp : compositional (@keeps_covered W).
Proof.
  split; [by intros s Hs _|].
  intros s t1 s1 t2 s2 H1 H2 Hs. rewrite marked_app, Forall_app.
  intros [Hm1 Hm2]. auto.
Qed.

Lemma keeps_covered_steps : steps_ok generate_content (@keeps_covered W).
Proof.
  split; try by intros; intros Hs _.
  intros s name text _ _ (Hbuf & content & Hresp & Hterm & Hledger) Hsafe.
  apply Forall_cons in Hsafe as [Hsafe _].
  split; [done|].
  exists (content +:+ response_csv_line name text).
  unfold recorded. cbn. rewrite Hresp, Hbuf. cbn.
  split; [done|]. split; [apply terminated_app_response|].
  pose proof (load_ledger_covers content name text Hterm Hsafe). set_solver.
Qed.

End Cover.

(** ** A second run over the same tree *)

Lemma quiet_app t1 t2 : quiet (t1 ++ t2) ↔ quiet t1 ∧ quiet t2.
Proof. unfold quiet. rewrite elem_of_app. tauto. Qed.

Lemma idle_app t1 t2 : idle t1 → idle t2 → idle (t1 ++ t2).
Proof. intros. by apply Forall_app. Qed.

Lemma idle_silent t :
  idle t → submissions t = [] ∧ written t = [] ∧ marked t = [] ∧ sleeps t = [].
Proof.
  induction 1 as [|e t He _ IH]; [done|]. by destruct e.
Qed.

Section Misses.
Context {W : Type}.
Variable generate_content : W → request → option string * W.
Variable print_raises write_raises : W → string → bool.

(** The last of the allowed attempts that raise prints the give-up
    message. *)
Lemma misses_not_quiet r name k : ∀ retry_count w w' t,
  0 < k → retry_count + k = max_retries →
  misses generate_content print_raises write_raises r name retry_count k w
    = Some (w', t) →
  EvPrint MsgMaxRetries ∈ t.
Proof.
  induction k as [|k IH]; intros retry_count w w' t Hk Hsum Hm; [lia|].
  apply misses_cons in Hm as (w1 & t1 & t2 & Hfa & Hm & ->).
  rewrite !elem_of_app. right. unfold handled.
  case_decide as Hlt.
  - right. apply (IH (retry_count + 1) w1 w' t2); [lia|lia|done].
  - left. set_solver.
Qed.


End Misses.

Section Idle.
Context {W : Type}.
Variable generate_content : W → request → option string * W.
Variable print_raises write_raises : W → string → bool.
Variable filter_re : string → bool.
Variable model_string : string.
Variable image_directory : node.

Local Abbreviation retry :=
  (retry_loop generate_content print_raises write_raises model_string).
Local Abbreviation entry :=
  (process_entry generate_content print_raises write_raises filter_re model_string
     image_directory).
Local Abbreviation send :=
  (send_filtered_image_prompts_for_directory
     generate_content print_raises write_raises filter_re model_string
     image_directory).

Lemma retry_ok name file_path prompt_string retry_count s :
  (retry name file_path prompt_string retry_count s).1.1 = Ok tt.
Proof.
  destruct (retry_loop_run generate_content print_raises write_raises model_string
              name file_path prompt_string retry_count s)
    as [(k & w1 & t1 & text & w' & _ & _ & _ & _ & _ & ->)|(w' & t1 & _ & ->)]; done.
Qed.

Lemma retry_submissions name file_path prompt_string retry_count s r :
  r ∈ submissions (retry name file_path prompt_string retry_count s).2 →
  r = Request model_string prompt_string file_path.
Proof.
  destruct (retry_loop_run generate_content print_raises write_raises model_string
              name file_path prompt_string retry_count s)
    as [(k & w1 & t1 & text & w' & _ & Hm & _ & _ & _ & ->)|(w' & t1 & Hm & ->)];
    cbn [snd];
    destruct (misses_events _ _ _ _ _ _ _ _ _ _ Hm) as (Hs & _ & _);
    rewrite ?submissions_app, Hs.
  - cbn. rewrite elem_of_app, list_elem_of_singleton.
    intros [[-> _]%elem_of_replicate| ->]; done.
  - by intros [-> _]%elem_of_replicate.
Qed.

(** The outcome of one entry of a directory. *)
Lemma entry_cases img_dir prompt_string name s :
  let file_path := Os.path_join img_dir name in
  entry img_dir prompt_string name s =
  if negb (filter_re name) then (Ok tt, s, [])
  else if bool_decide (name ∈ already_written_set s)
       then (Ok tt, s, [EvPrint (MsgAlreadyWritten name)])
  else match Os.resolve image_directory file_path with
       | Some (Reg true) =>
           let '(r, s', t) := retry name file_path prompt_string 0 s in
           (r, s', EvImageOpen file_path :: t)
       | Some (Reg false) =>
           (Raise (ImageOpenError file_path), s, [EvImageOpen file_path])
       | _ => (Ok tt, s, [])
       end.
Proof.
  intros file_path. unfold process_entry, Os.path_isfile. fold file_path.
  destruct (filter_re name); [|done]. cbn [negb].
  rewrite run_bind. cbn [set_contains].
  case_bool_decide; [done|].
  destruct (Os.resolve image_directory file_path) as [[[]| |]|] eqn:Hres;
    try done; rewrite run_bind, run_image_open, Hres; [|done].
  by destruct (retry name file_path prompt_string 0 s) as [[r s'] t].
Qed.

(** A retry loop that gave up on nothing has marked its file. *)
Lemma retry_quiet_marks name file_path prompt_string s res s' t :
  retry name file_path prompt_string 0 s = (res, s', t) →
  quiet t → name ∈ already_written_set s'.
Proof.
  intros Hrun Hq.
  destruct (retry_loop_run generate_content print_raises write_raises model_string
              name file_path prompt_string 0 s)
    as [(k & w1 & t1 & text & w' & _ & _ & _ & _ & _ & Hr)|(w' & t1 & Hm & Hr)];
    rewrite Hr in Hrun; simplify_eq.
  - cbn. set_solver.
  - destruct Hq. eapply misses_not_quiet; [| |done]; unfold max_retries; lia.
Qed.

Lemma ledger_mono {A} (m : M W A) s :
  respects tracks_ledger m →
  already_written_set s ⊆ already_written_set (m s).1.2.
Proof. intros H. rewrite (H s). apply replay_ledger_mono. Qed.

Lemma idle_entry img_dir prompt_string name :
  idle_after (entry img_dir prompt_string name).
Proof.
  intros s1 r1 s1' t1 s2 Hrun Hq Hsub Hres.
  rewrite entry_cases in Hrun. rewrite entry_cases.
  destruct (negb (filter_re name)).
  { simplify_eq. exists []. split; [done|constructor]. }
  destruct (bool_decide (name ∈ already_written_set s1)) eqn:Hin1.
  { simplify_eq. apply bool_decide_eq_true in Hin1.
    rewrite bool_decide_true by set_solver.
    eexists. split; [done|]. by repeat constructor. }
  apply bool_decide_eq_false in Hin1.
  destruct (Os.resolve image_directory (Os.path_join img_dir name))
    as [[[]| |]|] eqn:Hnode.
  - pose proof (retry_ok name (Os.path_join img_dir name) prompt_string 0 s1) as Hok.
    destruct (retry name (Os.path_join img_dir name) prompt_string 0 s1)
      as [[res sa] ta] eqn:Hr.
    cbn in Hok. simplify_eq.
    assert (name ∈ already_written_set s1') as Hin.
    { eapply retry_quiet_marks; [done|]. intros Hin. apply Hq. set_solver. }
    rewrite bool_decide_true by set_solver.
    eexists. split; [done|]. by repeat constructor.
  - simplify_eq.
    rewrite bool_decide_false
      by (eapply Hres; [done|apply last_snoc]).
    eexists. split; [done|]. by repeat constructor.
  - simplify_eq. case_bool_decide; eexists; (split; [done|]); by repeat constructor.
  - simplify_eq. case_bool_decide; eexists; (split; [done|]); by repeat constructor.
  - simplify_eq. case_bool_decide; eexists; (split; [done|]); by repeat constructor.
Qed.

Lemma idle_for_each {A} (l : list A) (body : A → M W unit) :
  (∀ x, respects tracks_ledger (body x)) →
  (∀ x, idle_after (body x)) →
  idle_after (for_each l body).
Proof.
  intros Hmono Hidle.
  induction l as [|x l IH]; intros s1 r1 s1' t1 s2 Hrun Hq Hsub Hres.
  - change ((Ok tt, s1, []) = (r1, s1', t1)) in Hrun. simplify_eq.
    exists []. split; [done|constructor].
  - rewrite run_for_each_cons in Hrun. rewrite run_for_each_cons.
    destruct (body x s1) as [[[[]|e] sa] ta] eqn:Hb.
    + destruct (for_each l body sa) as [[r sb] tb] eqn:Hl.
      simplify_eq. apply quiet_app in Hq as [Hqa Hqb].
      pose proof (ledger_mono (for_each l body) sa
                    (respects_for_each _ tracks_ledger_comp l body Hmono)) as Hm.
      rewrite Hl in Hm. simpl in Hm.
      destruct (Hidle x s1 (Ok tt) sa ta s2 Hb Hqa) as (t2a & -> & Hp2a);
        [set_solver|by intros p name [=]|].
      destruct (IH sa r1 s1' tb s2 Hl Hqb Hsub Hres) as (t2b & -> & Hp2b).
      exists (t2a ++ t2b). split; [done|]. by apply idle_app.
    + simplify_eq.
      destruct (Hidle x s1 (Raise e) s1' t1 s2 Hb Hq Hsub Hres) as (t2 & -> & Hp).
      by exists t2.
Qed.

Lemma idle_send img_dir prompt_string : idle_after (send img_dir prompt_string).
Proof.
  intros s1 r1 s1' t1 s2 Hrun Hq Hsub Hres.
  unfold send_filtered_image_prompts_for_directory, listdir in *.
  rewrite run_bind in Hrun. rewrite run_bind.
  destruct (Os.resolve image_directory img_dir) as [[| |link es]|];
    try (cbn in Hrun; simplify_eq; exists []; split; [done|constructor]).
  cbn [mret M_ret] in *.
  destruct (for_each (Py.sorted es.*1) (entry img_dir prompt_string) s1)
    as [[r sa] ta] eqn:Hl.
  simplify_eq.
  destruct (idle_for_each (Py.sorted es.*1) (entry img_dir prompt_string)
              (λ x, respects_entry generate_content print_raises write_raises
                      filter_re model_string
                      image_directory _ tracks_ledger_comp
                      (tracks_ledger_steps generate_content) img_dir prompt_string x)
              (idle_entry img_dir prompt_string)
              s1 r1 s1' ta s2 Hl Hq Hsub Hres) as (t2 & -> & Hp).
  by exists t2.
Qed.

Lemma idle_batch prompt_string :
  idle_after (batch generate_content print_raises write_raises filter_re
                model_string image_directory prompt_string).
Proof.
  apply idle_for_each.
  - intros e. apply respects_walk_body;
      [apply tracks_ledger_comp|apply tracks_ledger_steps].
  - intros [[dirpath dirnames] filenames]. unfold walk_body.
    destruct dirnames as [|d ds]; [apply idle_send|].
    apply idle_for_each.
    + intros sub. apply respects_bind;
        [apply tracks_ledger_comp
        |eapply respects_print, (tracks_ledger_steps generate_content)|].
      intros _. apply respects_send;
        [apply tracks_ledger_comp|apply tracks_ledger_steps].
    + intros sub s1 r1 s1' t1 s2 Hrun Hq Hsub Hres.
      rewrite run_bind in Hrun. rewrite run_bind. cbn [print emit] in *.
      change (Os.path_join [] sub) with [sub] in *.
      destruct (send [sub] prompt_string s1) as [[r sa] ta] eqn:Hs.
      simplify_eq.
      destruct (idle_send [sub] prompt_string s1 r1 s1' ta s2 Hs)
        as (t2 & H2 & Hp);
        [intros Hin; apply Hq; set_solver|done|done|].
      rewrite H2.
      exists (EvPrint (MsgSubdir sub) :: t2). split; [done|]. by constructor.
Qed.

End Idle.

(** ** Names that the ledger holds are not submitted *)

Lemma elem_of_submissions r t : r ∈ submissions t ↔ EvGenerate r ∈ t.
Proof.
  unfold submissions. rewrite list_elem_of_omap. split.
  - intros (e & He & Hr). destruct e; by simplify_eq.
  - intros H. by exists (EvGenerate r).
Qed.

Lemma fresh_no_submission L t name r :
  fresh_submissions L t → name ∈ L →
  r ∈ submissions t → submitted_name r ≠ Some name.
Proof.
  intros Hfresh Hin [pre [post ->]]%elem_of_submissions%list_elem_of_split Hname.
  apply (Hfresh pre r post name eq_refl Hname).
  by apply replay_ledger_mono.
Qed.


Lemma elem_of_load_ledger name content :
  name ∈ load_ledger content ↔
  ∃ line, line ∈ Py.file_lines content ∧ line_key line = name.
Proof.
  unfold load_ledger.
  assert (∀ l (L : gset string),
            name ∈ foldl (λ acc line, {[line_key line]} ∪ acc) L l
            ↔ name ∈ L ∨ ∃ line, line ∈ l ∧ line_key line = name) as H.
  { induction l as [|x l IH]; intros L; cbn [foldl].
    - split; [auto|]. intros [?|(line & Hl & _)]; [done|].
      by apply elem_of_nil in Hl.
    - rewrite IH. split.
      + intros [[->%elem_of_singleton|?]%elem_of_union|(line & Hl & Hk)].
        * right. exists x. split; [left|done].
        * by left.
        * right. exists line. split; [by right|done].
      + intros [?|(line & [->|Hl]%elem_of_cons & Hk)].
        * left. set_solver.
        * left. set_solver.
        * right. by exists line. }
  rewrite H. split; [|auto]. intros [?|?]; [set_solver|done].
Qed.

Section Skips.
Context {W : Type}.
Variable generate_content : W → request → option string * W.
Variable print_raises write_raises : W → string → bool.
Variable filter_re : string → bool.
Variable model_string : string.
Variable image_directory : node.
Variable prompt_text_txt : option string.
Variable responses_access : access.

Local Abbreviation run_main w responses :=
  (main generate_content print_raises write_raises
      filter_re model_string image_directory
        prompt_text_txt responses_access (initial w responses)).

Lemma main_fresh w responses :
  fresh_submissions (loaded responses) (run_main w responses).2 ∧
  ∀ name, name ∈ marked (run_main w responses).2 → name ∉ loaded responses.
Proof.
  pose proof (main_respects generate_content print_raises write_raises
      filter_re model_string
                image_directory prompt_text_txt responses_access
                keeps_fresh w responses
                keeps_fresh_comp (keeps_fresh_steps generate_content)) as Hf.
  pose proof (main_respects generate_content print_raises write_raises
      filter_re model_string
                image_directory prompt_text_txt responses_access
                keeps_new w responses
                keeps_new_comp (keeps_new_steps generate_content)) as Hn.
  destruct (run_main w responses) as [[r s'] t]. cbn [snd]. split.
  - destruct Hf as [(e & _ & _ & _ & _ & _ & [[-> _]|[-> _]])|[_ Hf]]; [| |done];
      intros pre r' post name H; split_trace.
  - destruct Hn as [(e & _ & _ & _ & _ & _ & [[-> _]|[-> _]])|[_ Hn]]; [| |done];
      intros name H; by apply elem_of_nil in H.
Qed.


(** What a second run does after a run that gave up on nothing. *)
Lemma rerun_is_idle w responses r1 s1 t1 :
  Is_true (terminated (default "" responses)) →
  run_main w responses = (r1, s1, t1) →
  quiet t1 →
  Forall (λ name, Is_true (key_safe name)) (marked t1) →
  stopper_is_new r1 (loaded (responses_txt s1)) →
  ∃ r2 s2 t2,
    run_main (remote s1) (responses_txt s1) = (r2, s2, t2) ∧ idle t2 ∧
    remote s2 = remote s1 ∧ responses_txt s2 = responses_txt s1 ∧
    buffer s2 = buffer s1 ∧
    (Is_true (can_read responses_access) → r2 = r1).
Proof.
  intros Hterm Hrun Hq Hsafe Hres.
  rewrite main_run in Hrun. rewrite main_run.
  destruct prompt_text_txt as [prompt_string|].
  2:{ simplify_eq. eexists _, _, _. split; [done|].
      split; [by repeat constructor|]. by repeat split. }
  destruct (bool_decide (is_Some responses) && negb (can_read responses_access))
    eqn:Hread.
  { simplify_eq. cbn [remote responses_txt initial]. rewrite Hread.
    eexists _, _, _. split; [done|].
    split; [by repeat constructor|]. by repeat split. }
  destruct (can_append responses_access) eqn:Happ.
  2:{ simplify_eq. cbn [remote responses_txt]. rewrite Hread.
      eexists _, _, _. split; [done|].
      split; [by repeat constructor|]. by repeat split. }
  destruct (batch _ _ _ _ _ _ _ (started w responses)) as [[r s1'] t1'] eqn:Hb.
  simplify_eq.
  apply (quiet_app [_]) in Hq as [_ Hq].
  pose proof (respects_batch generate_content print_raises write_raises filter_re
                model_string image_directory keeps_covered keeps_covered_comp
                (keeps_covered_steps generate_content)
                prompt_string (started w responses)) as Hc.
  fold (batch generate_content print_raises write_raises filter_re model_string
          image_directory prompt_string) in Hc.
  rewrite Hb in Hc. cbn [fst snd] in Hc.
  destruct Hc as (Hbuf & content & Hresp & Hterm' & Hledger).
  { split; [done|]. exists (default "" responses).
    split; [done|]. split; [done|]. by destruct responses. }
  { done. }
  rewrite Hresp in Hres |- *. rewrite Hbuf.
  destruct (can_read responses_access) eqn:Hcr.
  2:{ cbn. eexists _, _, _. split; [done|].
      split; [by repeat constructor|]. by repeat split. }
  cbn [bool_decide negb andb].
  assert (bool_decide (is_Some (Some content)) && false = false) as -> by
    by rewrite andb_false_r.
  destruct (idle_batch generate_content print_raises write_raises filter_re
              model_string image_directory prompt_string
              (started w responses) r1 s1 t1'
              (started (remote s1) (Some content)) Hb Hq) as (t2 & -> & Hp);
    [done|done|].
  eexists _, _, _. split; [done|].
  split; [by constructor|]. by repeat split.
Qed.

(** C1 (as amended).  In every run of [main], a name that is the key of
    a line of responses.txt as found is never submitted and never
    recorded again.  And a second run, started on the tree, the
    responses.txt and the service just as the first run left them, sends
    no request, writes nothing, adds nothing to the ledger, does not
    sleep and leaves responses.txt, the buffer and the service as they
    were (and, when responses.txt is readable, ends as the first run
    ended), provided that the first run gave up on no item, that the
    names it recorded are key safe (no comma, no line break, no leading
    white space), that responses.txt was whole (empty or ending in a
    line feed), and that, when the first run was stopped by a file that
    did not open as an image, the name of that file is not a key of
    responses.txt as the run left it. *)
Theorem second_run_is_idle w responses :
  let '(r1, s1, t1) := run_main w responses in
  (∀ content F line r,
     responses = Some content →
     line ∈ Py.file_lines content → line_key line = F →
     (F ∉ marked t1) ∧
     (r ∈ submissions t1 → submitted_name r ≠ Some F))
  ∧ (Is_true (terminated (default "" responses)) →
     quiet t1 →
     Forall (λ name, Is_true (key_safe name)) (marked t1) →
     stopper_is_new r1 (loaded (responses_txt s1)) →
     let '(r2, s2, t2) := run_main (remote s1) (responses_txt s1) in
     submissions t2 = [] ∧ written t2 = [] ∧ marked t2 = [] ∧ sleeps t2 = [] ∧
     remote s2 = remote s1 ∧ responses_txt s2 = responses_txt s1 ∧
     buffer s2 = buffer s1 ∧
     (Is_true (can_read responses_access) → r2 = r1)).
Proof.
  destruct (main_fresh w responses) as [Hf Hn].
  destruct (run_main w responses) as [[r1 s1] t1] eqn:Hrun.
  cbn [snd] in Hf, Hn. split.
  - intros content F line r -> Hline Hkey.
    assert (F ∈ loaded (Some content)) as Hin
      by (apply elem_of_load_ledger; eauto).
    split; [intros Hm; by apply (Hn F)|].
    intros Hr. by apply fresh_no_submission with (loaded (Some content)) t1.
  - intros Hterm Hq Hsafe Hres.
    destruct (rerun_is_idle w responses r1 s1 t1 Hterm Hrun Hq Hsafe Hres)
      as (r2 & s2 & t2 & -> & Hidle & Hw & Hresp & Hbuf & Hr).
    destruct (idle_silent t2 Hidle) as (? & ? & ? & ?).
    by repeat split.
Qed.

End Skips.

(** ** responses.txt is append-only *)

Section Appended.
Context {W : Type}.
Variable generate_content : W → request → option string * W.





End Appended.

(** ** What stops a run, and what does not *)

Section Containment.
Context {W : Type}.
Variable generate_content : W → request → option string * W.
Variable print_raises write_raises : W → string → bool.
Variable filter_re : string → bool.
Variable model_string : string.
Variable image_directory : node.
Variable prompt_text_txt : option string.
Variable responses_access : access.

Local Abbreviation retry := (retry_loop generate_content print_raises write_raises
    model_string).
Local Abbreviation entry :=
  (process_entry generate_content print_raises write_raises
      filter_re model_string image_directory).
Local Abbreviation send :=
  (send_filtered_image_prompts_for_directory
     generate_content print_raises write_raises filter_re model_string image_directory).
Local Abbreviation run_main w responses :=
  (main generate_content print_raises write_raises
      filter_re model_string image_directory
        prompt_text_txt responses_access (initial w responses)).






(** C8 (as amended).  For every entry of a scanned directory: a request
    is sent only if the name matches the pattern and the path is a
    regular file, and then it is a request for that path; an entry that
    fails either test is skipped without any error, leaving the state as
    it was, and the loop goes on with the next entry.  It is skipped
    without a trace, except that a name that matches the pattern and is
    already in the ledger gets the "already written" notice, whether or
    not it is a regular file, because that test comes first. *)
Theorem entry_is_filtered img_dir prompt_string name rest s :
  let '(r, s', t) := entry img_dir prompt_string name s in
  (∀ r', r' ∈ submissions t →
     Is_true (filter_re name) ∧
     Is_true (Os.path_isfile image_directory (Os.path_join img_dir name)) ∧
     r' = Request model_string prompt_string (Os.path_join img_dir name))
  ∧ (accepted filter_re image_directory img_dir name = false →
     r = Ok tt ∧ s' = s ∧
     t = (if filter_re name && bool_decide (name ∈ already_written_set s)
          then [EvPrint (MsgAlreadyWritten name)] else []) ∧
     for_each (name :: rest) (entry img_dir prompt_string) s =
       (let '(r2, s2, t2) := for_each rest (entry img_dir prompt_string) s in
        (r2, s2, t ++ t2))).
Proof.
  rewrite run_for_each_cons. rewrite entry_cases.
  unfold accepted, Os.path_isfile.
  destruct (filter_re name); cbn [negb andb].
  2:{ split; [by intros r' H; apply elem_of_nil in H|]. intros _.
      by destruct (for_each rest _ s) as [[r2 s2] t2]. }
  case_bool_decide as Hin.
  { split; [by intros r' H; apply elem_of_nil in H|]. intros _.
    by destruct (for_each rest _ s) as [[r2 s2] t2]. }
  destruct (Os.resolve image_directory (Os.path_join img_dir name))
    as [[[]| |]|] eqn:Hres.
  - pose proof (retry_submissions generate_content print_raises write_raises
                  model_string name (Os.path_join img_dir name)
                  prompt_string 0 s) as Hsub.
    destruct (retry _ _ _ _ _) as [[r s'] t]. cbn [snd] in Hsub.
    split; [|done]. intros r' Hr'. split; [done|]. split; [done|].
    apply Hsub. apply elem_of_submissions. apply elem_of_submissions in Hr'.
    by apply elem_of_cons in Hr' as [?|?].
  - split; [|done]. intros r' Hr'. apply elem_of_submissions in Hr'.
    apply list_elem_of_singleton in Hr'. done.
  - split; [by intros r' H; apply elem_of_nil in H|]. intros _.
    by destruct (for_each rest _ s) as [[r2 s2] t2].
  - split; [by intros r' H; apply elem_of_nil in H|]. intros _.
    by destruct (for_each rest _ s) as [[r2 s2] t2].
  - split; [by intros r' H; apply elem_of_nil in H|]. intros _.
    by destruct (for_each rest _ s) as [[r2 s2] t2].
Qed.


End Containment.

(** ** Writing, then loading *)

Section RoundTrip.
Context {W : Type}.
Variable generate_content : W → request → option string * W.
Variable print_raises write_raises : W → string → bool.
Variable filter_re : string → bool.
Variable model_string : string.
Variable image_directory : node.
Variable prompt_text_txt : option string.
Variable responses_access : access.

Local Abbreviation run_main w responses :=
  (main generate_content print_raises write_raises
      filter_re model_string image_directory
        prompt_text_txt responses_access (initial w responses)).


End RoundTrip.

(** ** Runs on concrete trees *)

Example flat_scenario :
  submissions (run (steady "supine") flat3 tt None).2
  = [gemini ["001.jpg"]; gemini ["002.jpg"]; gemini ["003.png"]]
  ∧ responses_txt (run (steady "supine") flat3 tt None).1.2
    = Some (response_csv_line "001.jpg" "supine"
            +:+ response_csv_line "002.jpg" "supine"
            +:+ response_csv_line "003.png" "supine").
Proof. split; vm_compute; reflexivity. Qed.

(** C5.  The root directory [root_with_file] holds the sub-directory A
    (with 1.jpg) and the file 9.jpg.  The run scans A, and then, when
    [os.walk] yields A itself, which has no sub-directory, it scans the
    root as a flat directory: 9.jpg, lying in the root next to A, is
    submitted and recorded. *)
Theorem root_file_is_scanned_next_to_subdirectories :
  let '(r, s', t) := run (steady "supine") root_with_file tt None in
  r = Ok tt ∧
  Os.walk [] root_with_file = [([], ["A"], ["9.jpg"]); (["A"], [], ["1.jpg"])] ∧
  submissions t = [gemini ["A"; "1.jpg"]; gemini ["9.jpg"]] ∧
  written t = [response_csv_line "1.jpg" "supine";
               response_csv_line "9.jpg" "supine"].
Proof. vm_compute. repeat split; reflexivity. Qed.

(** C1, counterexample.  Two runs in a row over an unchanged tree and
    store.  With a service that is down, the first run gives up on
    1.jpg and the second run sends four requests for it.  With a service
    that answers, and an image named " 1.jpg", the first run records the
    image and the second run submits it and writes its line once more,
    since the key loaded from its line is "1.jpg"; likewise for a name
    with a comma and for a name with a line feed.  With a responses.txt
    that holds "note" and no line feed, the line of 1.jpg is appended to
    that word, the key loaded is "note1.jpg", and the second run submits
    1.jpg again.  And in [damaged], with an answer of two lines whose
    second line starts with "2.jpg,", the first run records 1.jpg and is
    stopped by 2.jpg, which is not an image; the second run finds 2.jpg
    among the keys, skips it and submits 3.jpg. *)
Lemma second_run_submits_again :
  (let '(r1, s1, t1) := run broken single tt None in
   r1 = Ok tt ∧
   submissions (run broken single (remote s1) (responses_txt s1)).2
   = replicate 4 (gemini ["1.jpg"]))
  ∧ (let '(r1, s1, t1) := run (steady "supine") spaced tt None in
     r1 = Ok tt ∧ quiet t1 ∧
     written t1 = [response_csv_line " 1.jpg" "supine"] ∧
     submissions (run (steady "supine") spaced (remote s1) (responses_txt s1)).2
     = [gemini [" 1.jpg"]] ∧
     written (run (steady "supine") spaced (remote s1) (responses_txt s1)).2
     = [response_csv_line " 1.jpg" "supine"])
  ∧ (let '(r1, s1, t1) := run (steady "supine") with_comma tt None in
     r1 = Ok tt ∧ quiet t1 ∧ marked t1 = ["a,1.jpg"] ∧
     submissions
       (run (steady "supine") with_comma (remote s1) (responses_txt s1)).2
     = [gemini ["a,1.jpg"]])
  ∧ (let '(r1, s1, t1) := run (steady "supine") with_break tt None in
     r1 = Ok tt ∧ quiet t1 ∧ marked t1 = ["a" +:+ String Py.LF "1.jpg"] ∧
     submissions
       (run (steady "supine") with_break (remote s1) (responses_txt s1)).2
     = [gemini ["a" +:+ String Py.LF "1.jpg"]])
  ∧ (let '(r1, s1, t1) := run (steady "supine") single tt (Some "note") in
     r1 = Ok tt ∧ quiet t1 ∧ marked t1 = ["1.jpg"] ∧
     responses_txt s1 = Some ("note" +:+ response_csv_line "1.jpg" "supine") ∧
     submissions (run (steady "supine") single (remote s1) (responses_txt s1)).2
     = [gemini ["1.jpg"]])
  ∧ (let '(r1, s1, t1) := run (steady two_lines) damaged tt None in
     r1 = Raise (ImageOpenError ["2.jpg"]) ∧ quiet t1 ∧ marked t1 = ["1.jpg"] ∧
     "2.jpg" ∈ loaded (responses_txt s1) ∧
     submissions (run (steady two_lines) damaged (remote s1) (responses_txt s1)).2
     = [gemini ["3.jpg"]]).
Proof.
  split; [|split; [|split; [|split; [|split]]]].
  - vm_compute. split; reflexivity.
  - assert (quiet (run (steady "supine") spaced tt None).2) as Hq
      by by_computation.
    revert Hq. vm_compute. intros Hq. repeat split; try reflexivity. exact Hq.
  - assert (quiet (run (steady "supine") with_comma tt None).2) as Hq
      by by_computation.
    revert Hq. vm_compute. intros Hq. repeat split; try reflexivity. exact Hq.
  - assert (quiet (run (steady "supine") with_break tt None).2) as Hq
      by by_computation.
    revert Hq. vm_compute. intros Hq. repeat split; try reflexivity. exact Hq.
  - assert (quiet (run (steady "supine") single tt (Some "note")).2) as Hq
      by by_computation.
    revert Hq. vm_compute. intros Hq. repeat split; try reflexivity. exact Hq.
  - assert (quiet (run (steady two_lines) damaged tt None).2) as Hq
      by by_computation.
    assert ("2.jpg" ∈ loaded
              (responses_txt (run (steady two_lines) damaged tt None).1.2))
      as Hin by by_computation.
    revert Hq Hin. vm_compute. intros Hq Hin.
    repeat split; try reflexivity; assumption.
Qed.

(** C3, counterexample.  The service answers the first call, so that it
    fails [K = 0] times and then succeeds; the file does not take the
    line.  The write raises inside the [try] block, the [except] clause
    counts a failed attempt, and the loop sends the request four times,
    sleeps 1, 2 and 3 seconds and records nothing.  The same happens
    when the console does not take the line. *)
Lemma answer_that_is_not_written :
  failures (steady "supine") (gemini ["1.jpg"]) 0 tt = Some tt ∧
  steady "supine" tt (gemini ["1.jpg"]) = (Some "supine", tt) ∧
  (let '(res, s', t) :=
     retry_loop (steady "supine") takes_all takes_none "gemini-3-pro-preview"
       "1.jpg" ["1.jpg"] "Describe the position." 0 (started tt None) in
   res = Ok tt ∧
   submissions t = replicate 4 (gemini ["1.jpg"]) ∧
   sleeps t = [1; 2; 3] ∧
   written t = [] ∧ marked t = [] ∧
   last t = Some (EvPrint MsgMaxRetries) ∧
   s' = started tt None) ∧
  (let '(res, s', t) :=
     retry_loop (steady "supine") takes_none takes_all "gemini-3-pro-preview"
       "1.jpg" ["1.jpg"] "Describe the position." 0 (started tt None) in
   res = Ok tt ∧
   submissions t = replicate 4 (gemini ["1.jpg"]) ∧
   sleeps t = [1; 2; 3] ∧
   written t = [] ∧ marked t = [] ∧
   s' = started tt None).
Proof. vm_compute. repeat split; reflexivity. Qed.



(** C8, counterexample.  In [with_fifo] the entry 7.jpg matches the
    pattern and is not a regular file; its name is a key of
    responses.txt.  The scan prints the "already written" notice for it:
    it is not skipped silently. *)
Lemma fifo_is_announced :
  Os.path_isfile with_fifo ["7.jpg"] = false ∧
  (run (steady "supine") with_fifo tt
       (Some (response_csv_line "7.jpg" "prone"))).2
  = [EvPrint (MsgExisting 1);
     EvImageOpen ["1.jpg"];
     EvGenerate (gemini ["1.jpg"]);
     EvPrint (MsgResponse (response_csv_line "1.jpg" "supine"));
     EvWrite (response_csv_line "1.jpg" "supine");
     EvFlush;
     EvSetAdd "1.jpg";
     EvPrint (MsgAlreadyWritten "7.jpg")].
Proof. split; vm_compute; reflexivity. Qed.


(** ** The theorems at concrete inputs *)

Lemma retry_succeeds_after_failures_witness :
  2 < max_retries ∧
  let '(res, s', t) :=
    retry_loop scripted takes_all takes_all "gemini-3-pro-preview" "1.jpg" ["1.jpg"]
      "Describe the position." 0
      (started [None; None; Some "supine"] None) in
  res = Ok tt ∧
  s' = recorded (with_remote (started [None; None; Some "supine"] None) [])
         "1.jpg" "supine" ∧
  t = failed_attempts (gemini ["1.jpg"]) 0 2
      ++ EvGenerate (gemini ["1.jpg"]) :: recording "1.jpg" "supine" ∧
  submissions t = replicate (2 + 1) (gemini ["1.jpg"]) ∧
  sleeps t = (λ i, delay_seconds * i) <$> seq 1 2.
Proof.
  split; [unfold max_retries; lia|].
  apply (retry_succeeds_after_failures scripted takes_all takes_all
           "gemini-3-pro-preview"
           "1.jpg" ["1.jpg"] "Describe the position."
           (started [None; None; Some "supine"] None)
           2 [Some "supine"] "supine" []).
  - unfold max_retries; lia.
  - reflexivity.
  - reflexivity.
  - reflexivity.
  - reflexivity.
Defined.

Lemma retry_gives_up_when_always_failing_witness :
  let '(res, s', t) :=
    retry_loop broken takes_all takes_all "gemini-3-pro-preview" "1.jpg" ["1.jpg"]
      "Describe the position." 0 (started tt None) in
  res = Ok tt ∧
  submissions t = replicate max_retries (gemini ["1.jpg"]) ∧
  length (submissions t) = 4 ∧
  written t = [] ∧ marked t = [] ∧
  last t = Some (EvPrint MsgMaxRetries) ∧
  responses_txt s' = responses_txt (started tt None) ∧
  buffer s' = buffer (started tt None) ∧
  already_written_set s' = already_written_set (started tt None).
Proof.
  apply (retry_gives_up_when_always_failing broken takes_all takes_all
           "gemini-3-pro-preview"
           "1.jpg" ["1.jpg"] "Describe the position." (started tt None)).
  intros w. reflexivity.
Defined.


Lemma second_run_is_idle_witness :
  let first := run (steady "supine") flat3 tt None in
  let second :=
    run (steady "supine") flat3 (remote first.1.2) (responses_txt first.1.2) in
  first.1.1 = Ok tt ∧ quiet first.2 ∧
  submissions second.2 = [] ∧ written second.2 = [] ∧ marked second.2 = [] ∧
  sleeps second.2 = [] ∧
  remote second.1.2 = remote first.1.2 ∧
  responses_txt second.1.2 = responses_txt first.1.2 ∧
  buffer second.1.2 = buffer first.1.2 ∧
  second.1.1 = first.1.1.
Proof.
  intros first.
  assert (first.1.1 = Ok tt) as Hok by (vm_compute; reflexivity).
  assert (quiet first.2) as Hq by by_computation.
  assert (Forall (λ name, Is_true (key_safe name)) (marked first.2)) as Hsafe
    by by_computation.
  pose proof (second_run_is_idle (steady "supine") takes_all takes_all
                default_filter_re
                "gemini-3-pro-preview" flat3 (Some "Describe the position.")
                rw tt None) as H.
  fold (run (steady "supine") flat3 tt None) in H. fold first in H.
  destruct first as [[r1 s1] t1]. cbn [fst snd] in *.
  assert (stopper_is_new r1 (loaded (responses_txt s1))) as Hnew
    by (intros p name Hr; by rewrite Hok in Hr).
  destruct H as [_ H]. specialize (H I Hq Hsafe Hnew).
  fold (run (steady "supine") flat3 (remote s1) (responses_txt s1)) in H.
  destruct (run (steady "supine") flat3 (remote s1) (responses_txt s1))
    as [[r2 s2] t2].
  cbn [fst snd].
  destruct H as (? & ? & ? & ? & ? & ? & ? & Hr).
  split; [exact Hok|]. split; [exact Hq|]. repeat split; try done.
  by apply Hr.
Defined.


Lemma entry_is_filtered_witness :
  accepted default_filter_re with_fifo [] "notes.txt" = false ∧
  process_entry (steady "supine") takes_all takes_all default_filter_re
    "gemini-3-pro-preview"
    with_fifo [] "Describe the position." "notes.txt" (started tt None)
  = (Ok tt, started tt None, []).
Proof.
  split; [reflexivity|].
  pose proof (entry_is_filtered (steady "supine") takes_all takes_all
                default_filter_re
                "gemini-3-pro-preview" with_fifo [] "Describe the position."
                "notes.txt" [] (started tt None)) as H.
  destruct (process_entry _ _ _ _ _ _ _ _ _ _) as [[r s'] t].
  destruct H as [_ H]. by destruct (H eq_refl) as (-> & -> & -> & _).
Defined.


(** * Further properties of the code *)

(** ** The retry loop, whatever the service does *)

Section RetryBounds.
Context {W : Type}.
Variable generate_content : W → request → option string * W.
Variable print_raises write_raises : W → string → bool.
Variable model_string : string.

Local Abbreviation retry := (retry_loop generate_content print_raises write_raises
    model_string).
Local Abbreviation failed := (failures generate_content).

Local Abbreviation missed := (misses generate_content print_raises write_raises).



(** X2.  When the first [max_retries] calls fail, the loop gives up on
    the item whatever a further call would answer: it has made exactly
    four calls and slept 1, 2 and 3 seconds, one sleep after each of the
    first three failures and none after the last, where it prints the
    give-up message instead; the service is left in the state reached by
    the four calls and nothing else has changed. *)
Theorem retry_gives_up_after_four_failures
    img_filename file_path prompt_string s w' :
  let r := Request model_string prompt_string file_path in
  failed r max_retries (remote s) = Some w' →
  retry img_filename file_path prompt_string 0 s
  = (Ok tt, with_remote s w',
     [EvGenerate r; EvPrint (MsgError file_path 1 4);
      EvPrint (MsgRetrying 1); EvSleep 1;
      EvGenerate r; EvPrint (MsgError file_path 2 4);
      EvPrint (MsgRetrying 2); EvSleep 2;
      EvGenerate r; EvPrint (MsgError file_path 3 4);
      EvPrint (MsgRetrying 3); EvSleep 3;
      EvGenerate r; EvPrint (MsgError file_path 4 4);
      EvPrint MsgMaxRetries]).
Proof.
  intros r Hfail.
  pose proof (misses_failures generate_content print_raises write_raises
                r img_filename max_retries 0 _ _ Hfail) as HmK.
  pose proof (retry_loop_run generate_content print_raises write_raises
                model_string img_filename file_path prompt_string 0 s) as Hrun.
  cbv zeta in Hrun. fold r in Hrun.
  destruct Hrun as [(k & w1 & t1 & text & w1' & Hk & Hf & Hg & Hp & Hw & _)
                   |(w1 & t1 & Hf & ->)].
  - rewrite (misses_stop generate_content print_raises write_raises r
               img_filename k 0 (remote s) w1 t1 text w1' Hf Hg Hp Hw
               max_retries) in HmK by lia. done.
  - replace (max_retries - 0) with max_retries in * by done.
    rewrite Hf in HmK. by injection HmK as -> ->.
Qed.

End RetryBounds.

Lemma retry_gives_up_after_four_failures_witness :
  failures scripted (gemini ["1.jpg"]) max_retries
    [None; None; None; None; Some "supine"] = Some [Some "supine"]
  ∧ submissions
      (retry_loop scripted takes_all takes_all "gemini-3-pro-preview"
         "1.jpg" ["1.jpg"] "Describe the position." 0
         (started [None; None; None; None; Some "supine"] None)).2
    = replicate 4 (gemini ["1.jpg"]).
Proof.
  split; [reflexivity|].
  rewrite (retry_gives_up_after_four_failures scripted takes_all takes_all
             "gemini-3-pro-preview"
             "1.jpg" ["1.jpg"] "Describe the position."
             (started [None; None; None; None; Some "supine"] None)
             [Some "supine"]); reflexivity.
Defined.

(** ** One line per file and run *)

Section Once.
Context {W : Type}.
Variable generate_content : W → request → option string * W.
Variable print_raises write_raises : W → string → bool.
Variable filter_re : string → bool.
Variable model_string : string.
Variable image_directory : node.
Variable prompt_text_txt : option string.
Variable responses_access : access.




End Once.

(** ** What the loader can and cannot read *)

Section Loader.

Lemma translate_out_no_cr s : ∀ pending_cr,
  has_char Py.CR (Py.translate_newlines pending_cr s) = false.
Proof.
  induction s as [|c s IH]; intros pending_cr; [done|].
  cbn [Py.translate_newlines].
  destruct (Ascii.eqb c Py.CR) eqn:Hc; [cbn [has_char]; by rewrite IH|].
  destruct (Ascii.eqb c Py.LF && pending_cr); [apply IH|].
  cbn [has_char]. by rewrite Hc, IH.
Qed.

Lemma splitlines_lines s line :
  line ∈ Py.splitlines s →
  one_line line ∧ ∀ c, has_char c s = false → has_char c line = false.
Proof.
  revert line. induction s as [|c s IH]; intros line;
    [by intros H; apply elem_of_nil in H|].
  cbn [Py.splitlines]. destruct (Ascii.eqb c Py.LF) eqn:Hc.
  - intros [->|Hin]%elem_of_cons.
    + apply Ascii.eqb_eq in Hc as ->. split; [exists ""; by split; [|right]|].
      intros c'. cbn [has_char]. intros [Hx _]%orb_false_elim.
        by rewrite Hx.
    + destruct (IH line Hin) as [H1 H2]. split; [done|].
      intros c'. cbn [has_char]. intros [_ ?]%orb_false_elim. auto.
  - destruct (Py.splitlines s) as [|l ls] eqn:Hs.
    + intros ->%list_elem_of_singleton. split.
      * exists (String c ""). split; [cbn [has_char]; by rewrite Hc|by left].
      * intros c'. cbn [has_char]. intros [Hx _]%orb_false_elim.
        by rewrite Hx.
    + intros [->|Hin]%elem_of_cons.
      * destruct (IH l) as [(body & Hb & Hl) H2]; [left|]. split.
        -- exists (String c body). split; [cbn [has_char]; by rewrite Hc, Hb|].
           destruct Hl as [->| ->]; [by left|by right].
        -- intros c'. cbn [has_char]. intros [Hx Hs']%orb_false_elim.
           rewrite Hx. cbn. auto.
      * destruct (IH line) as [H1 H2]; [by right|]. split; [done|].
        intros c'. cbn [has_char]. intros [_ ?]%orb_false_elim. auto.
Qed.

Lemma has_char_lstrip c s : has_char c s = false → has_char c (Py.lstrip s) = false.
Proof.
  induction s as [|x s IH]; [done|]. cbn [Py.lstrip]. intros H.
  destruct (Py.isspace x); [|done]. apply IH.
  cbn [has_char] in H. by apply orb_false_elim in H as [_ ?].
Qed.

Lemma has_char_rstrip c s : has_char c s = false → has_char c (Py.rstrip s) = false.
Proof.
  induction s as [|x s IH]; [done|]. cbn [Py.rstrip has_char].
  intros [Hx Hs]%orb_false_elim. specialize (IH Hs).
  destruct (Py.rstrip s) as [|y r].
  - destruct (Py.isspace x); [done|]. cbn [has_char]. by rewrite Hx.
  - cbn [has_char] in *. by rewrite Hx, IH.
Qed.

Lemma rstrip_app_space a w :
  Py.isspace w = true → Py.rstrip (a +:+ String w "") = Py.rstrip a.
Proof.
  intros Hw. induction a as [|c a IH];
    [rewrite app_empty_l; cbn [Py.rstrip]; by rewrite Hw|].
  rewrite app_String. cbn [Py.rstrip]. by rewrite IH.
Qed.

Lemma one_line_tail c x : one_line (String c x) → one_line x.
Proof.
  intros (body & Hb & [H|H]).
  - destruct body as [|c' body]; [done|]. injection H as -> ->.
    exists body. split; [|by left]. cbn [has_char] in Hb.
    by apply orb_false_elim in Hb as [_ ?].
  - destruct body as [|c' body].
    + rewrite app_empty_l in H. injection H as -> ->. exists "". by split; [|left].
    + rewrite app_String in H. injection H as -> ->.
      exists body. split; [|by right]. cbn [has_char] in Hb.
      by apply orb_false_elim in Hb as [_ ?].
Qed.

Lemma one_line_lstrip x : one_line x → one_line (Py.lstrip x).
Proof.
  induction x as [|c x IH]; [done|]. intros H. cbn [Py.lstrip].
  destruct (Py.isspace c); [|done]. apply IH. by apply one_line_tail in H.
Qed.

Lemma one_line_rstrip x : one_line x → has_char Py.LF (Py.rstrip x) = false.
Proof.
  intros (body & Hb & [->| ->]); [by apply has_char_rstrip|].
  rewrite rstrip_app_space by done. by apply has_char_rstrip.
Qed.

Lemma no_lead_lstrip s : no_lead (Py.lstrip s) = true.
Proof.
  induction s as [|c s IH]; [done|]. cbn [Py.lstrip].
  destruct (Py.isspace c) eqn:Hc; [done|]. cbn. by rewrite Hc.
Qed.

Lemma no_lead_rstrip s : no_lead s = true → no_lead (Py.rstrip s) = true.
Proof.
  destruct s as [|c s]; [done|]. cbn [Py.rstrip no_lead].
  intros Hc%negb_true_iff. rewrite Hc. by destruct (Py.rstrip s); cbn; rewrite ?Hc.
Qed.

Lemma no_lead_split sep s : no_lead s = true → no_lead (Py.split sep s).1 = true.
Proof.
  destruct s as [|c s]; [done|]. cbn [Py.split no_lead]. intros Hc.
  destruct (Py.split sep s) as [hd tl]. by destruct (Ascii.eqb c sep).
Qed.

Lemma no_lead_fixes_lstrip s : no_lead s = true → Py.lstrip s = s.
Proof.
  destruct s as [|c s]; [done|]. cbn [Py.lstrip no_lead].
  by intros ->%negb_true_iff.
Qed.

Lemma has_char_split c sep s :
  has_char c s = false → has_char c (Py.split sep s).1 = false.
Proof.
  induction s as [|x s IH]; [done|]. cbn [has_char Py.split].
  intros [Hx Hs]%orb_false_elim. specialize (IH Hs).
  destruct (Py.split sep s) as [hd tl]. destruct (Ascii.eqb x sep); [done|].
  cbn [fst has_char] in *. by rewrite Hx, IH.
Qed.

Lemma split_field_has_no_sep sep s : has_char sep (Py.split sep s).1 = false.
Proof.
  induction s as [|x s IH]; [done|]. cbn [Py.split].
  destruct (Py.split sep s) as [hd tl]. destruct (Ascii.eqb x sep) eqn:Hx; [done|].
  cbn [fst has_char] in *. by rewrite Hx, IH.
Qed.

(** X4.  Every key that the loader (lines 163-167) reads from
    responses.txt, whatever the file holds, has no comma, no line feed,
    no carriage return and no white space in front.  So a file name
    with a comma, a line break or leading white space is never in a
    ledger loaded from the store, whatever was written for it. *)
Theorem loaded_keys_are_key_safe content name :
  name ∈ load_ledger content → Is_true (key_safe name).
Proof.
  intros (line & Hline & <-)%elem_of_load_ledger.
  unfold Py.file_lines, Py.universal_newlines in Hline.
  destruct (splitlines_lines _ _ Hline) as [Hone Hchars].
  pose proof (Hchars Py.CR (translate_out_no_cr content false)) as Hcr.
  unfold key_safe, single_line, line_key, Py.strip.
  rewrite split_field_has_no_sep.
  rewrite (has_char_split Py.LF)
    by by apply one_line_rstrip, one_line_lstrip.
  rewrite (has_char_split Py.CR)
    by by apply has_char_rstrip, has_char_lstrip.
  rewrite bool_decide_true; [done|].
  apply no_lead_fixes_lstrip, no_lead_split, no_lead_rstrip, no_lead_lstrip.
Qed.

(** X5.  Loading distributes over appending to a whole store: when the
    first part is empty or ends in a line feed, the keys of the two
    parts together are the keys of the whole.  And a store never yields
    more keys than it has lines, so that the count of existing responses
    printed at start-up is at most the number of lines of
    responses.txt. *)
Theorem load_ledger_app a b :
  Is_true (terminated a) →
  load_ledger (a +:+ b) = load_ledger a ∪ load_ledger b
  ∧ size (load_ledger b) ≤ length (Py.file_lines b).
Proof.
  intros Ha. rewrite !load_ledger_keys, file_lines_app, fmap_app by done.
  split; [set_solver|].
  rewrite <- (length_fmap line_key).
  generalize (line_key <$> Py.file_lines b). intros l.
  induction l as [|x l IH]; [done|].
  cbn [list_to_set length]. rewrite size_union_alt, size_singleton.
  assert (size ((list_to_set l : gset string) ∖ {[x]})
          ≤ size (list_to_set l : gset string)) as Hle
    by (apply subseteq_size; set_solver).
  lia.
Qed.

End Loader.

Lemma load_ledger_app_witness :
  Is_true (terminated (response_csv_line "1.jpg" "prone")) ∧
  load_ledger (response_csv_line "1.jpg" "prone" +:+ "2.jpg, supine")
  = load_ledger (response_csv_line "1.jpg" "prone") ∪ load_ledger "2.jpg, supine".
Proof.
  split; [exact I|].
  exact (proj1 (load_ledger_app (response_csv_line "1.jpg" "prone")
                  "2.jpg, supine" I)).
Defined.

Lemma loaded_keys_are_key_safe_witness :
  "b" ∈ load_ledger (" a ,x" +:+ String Py.CR "  b,1,2") ∧
  Is_true (key_safe "b").
Proof.
  assert ("b" ∈ load_ledger (" a ,x" +:+ String Py.CR "  b,1,2")) as H
    by by_computation.
  split; [exact H|]. exact (loaded_keys_are_key_safe _ _ H).
Defined.

(** ** The walk of [main] on a flat root and on one level of
    sub-directories *)

Section Loops.
Context {W : Type}.

Lemma bind_noop (m k : M W unit) s :
  (∀ s', k s' = (Ok tt, s', [])) → (m ≫= λ _, k) s = m s.
Proof.
  intros Hk. rewrite run_bind. destruct (m s) as [[[[]|e] s1] t1]; [|done].
  by rewrite Hk, app_nil_r.
Qed.

Lemma for_each_noop {A} (l : list A) (body : A → M W unit) s :
  (∀ x s', x ∈ l → body x s' = (Ok tt, s', [])) →
  for_each l body s = (Ok tt, s, []).
Proof.
  induction l as [|x l IH]; intros Hbody; [done|].
  rewrite run_for_each_cons, Hbody by left.
  rewrite IH; [done|]. intros y s' Hy. apply Hbody. by right.
Qed.

Lemma for_each_ext {A} (l : list A) (body body' : A → M W unit) s :
  (∀ x s', x ∈ l → body x s' = body' x s') →
  for_each l body s = for_each l body' s.
Proof.
  revert s. induction l as [|x l IH]; intros s Hbody; [done|].
  rewrite !run_for_each_cons, Hbody by left.
  destruct (body' x s) as [[[[]|e] s1] t1]; [|done].
  rewrite IH; [done|]. intros y s' Hy. apply Hbody. by right.
Qed.

End Loops.

Lemma walk_cons top link e es :
  Os.walk top (Dir link (e :: es)) =
  (top, Os.dirnames (e :: es), Os.filenames (e :: es))
  :: match e.2 with
     | Dir false _ => Os.walk (Os.path_join top e.1) e.2
     | _ => []
     end ++ tail (Os.walk top (Dir link es)).
Proof. destruct e as [name [ok| |[] es']]; reflexivity. Qed.

Lemma dirnames_cons e es :
  Os.dirnames (e :: es) =
  if Os.is_dir e.2 then e.1 :: Os.dirnames es else Os.dirnames es.
Proof.
  by destruct e as [name [ok| |link es']].
Qed.

(** A directory without sub-directories is walked in one step. *)
Lemma walk_flat top link es :
  Os.dirnames es = [] →
  Os.walk top (Dir link es) = [(top, [], Os.filenames es)].
Proof.
  induction es as [|e es IH]; [done|]. rewrite dirnames_cons.
  destruct (Os.is_dir e.2) eqn:He; [done|]. intros Hes.
  rewrite walk_cons, IH, dirnames_cons, He, Hes by done.
  by destruct e as [name [| |]].
Qed.

(** With leaves as sub-directories, the walk is the root and then steps
    without sub-directories. *)
Lemma walk_one_level top link es :
  (∀ name es', (name, Dir false es') ∈ es → Os.dirnames es' = []) →
  ∃ leaves,
    Os.walk top (Dir link es) = (top, Os.dirnames es, Os.filenames es) :: leaves
    ∧ Forall (λ e, e.1.2 = []) leaves.
Proof.
  induction es as [|e es IH]; intros Hleaf; [by exists []|].
  destruct IH as (leaves & Hw & Hl).
  { intros name es' Hin. apply (Hleaf name). by right. }
  rewrite walk_cons, Hw. cbn [tail].
  destruct e as [name [ok| |[] es']]; cbn [snd fst]; try by eexists.
  rewrite (walk_flat _ false es') by (apply (Hleaf name); left).
  eexists. split; [done|]. by constructor.
Qed.

Section Shapes.
Context {W : Type}.
Variable generate_content : W → request → option string * W.
Variable print_raises write_raises : W → string → bool.
Variable filter_re : string → bool.
Variable model_string : string.
Variable prompt_text_txt : option string.
Variable responses_access : access.

Local Abbreviation send root :=
  (send_filtered_image_prompts_for_directory
     generate_content print_raises write_raises filter_re model_string root).
Local Abbreviation run_main root w responses :=
  (main generate_content print_raises write_raises filter_re model_string root
        prompt_text_txt responses_access (initial w responses)).
Local Abbreviation the_batch root :=
  (batch generate_content print_raises write_raises filter_re model_string root).

(** X6.  When [--image_directory] is missing, is not a directory, or
    is an empty directory, [main] is no error: once the prompt and
    responses.txt have opened, the run ends normally having sent
    nothing and written nothing, and responses.txt exists afterwards
    (empty when it was missing). *)
Theorem nothing_to_scan image_directory w responses prompt_string :
  Os.is_dir image_directory = false ∨ (∃ link, image_directory = Dir link []) →
  prompt_text_txt = Some prompt_string →
  can_read responses_access = true →
  can_append responses_access = true →
  run_main image_directory w responses
  = (Ok tt, started w responses, [EvPrint (greeting responses)]).
Proof.
  intros Hroot Hprompt Hread Happ.
  rewrite main_run, Hprompt, Hread, Happ, andb_false_r. unfold batch.
  destruct Hroot as [Hnd|[link ->]].
  - by destruct image_directory.
  - reflexivity.
Qed.

(** X7.  When the root of the images is a directory without
    sub-directories, [main] is its set-up followed by exactly one scan
    of the root as a flat directory. *)
Theorem flat_root_is_scanned_once w responses prompt_string link es :
  Os.dirnames es = [] →
  prompt_text_txt = Some prompt_string →
  can_read responses_access = true →
  can_append responses_access = true →
  run_main (Dir link es) w responses
  = (let '(r, s', t) :=
       send (Dir link es) [] prompt_string (started w responses) in
     (r, s', EvPrint (greeting responses) :: t)).
Proof.
  intros Hflat Hprompt Hread Happ.
  rewrite main_run, Hprompt, Hread, Happ, andb_false_r. unfold batch.
  rewrite walk_flat by done.
  change (for_each [([], [], Os.filenames es)] ?b)
    with (b ([], [], Os.filenames es) ≫= λ _, mret tt).
  rewrite bind_noop by done. reflexivity.
Qed.

Lemma send_root_noop link es prompt_string s :
  (∀ name, name ∈ es.*1 → filter_re name = false) →
  send (Dir link es) [] prompt_string s = (Ok tt, s, []).
Proof.
  intros Hnone.
  unfold send_filtered_image_prompts_for_directory, listdir.
  rewrite run_bind. cbn [Os.resolve mret M_ret].
  rewrite for_each_noop; [done|].
  intros name s' Hin. unfold process_entry.
  rewrite Hnone; [done|].
  unfold Py.sorted in Hin. by rewrite merge_sort_Permutation in Hin.
Qed.

(** X8.  One level of sub-directories, as the program is meant for:
    when the root holds at least one sub-directory, its sub-directories
    hold none, and no name in the root matches the pattern, the loop of
    [main] is exactly: for each sub-directory of the root, in sorted
    order, print its name and scan it as a flat directory.  (The scans
    of the root that follow find nothing to do.) *)
Theorem one_level_is_scanned_by_subdirectory link es prompt_string s :
  Os.dirnames es ≠ [] →
  (∀ name es', (name, Dir false es') ∈ es → Os.dirnames es' = []) →
  (∀ name, name ∈ es.*1 → filter_re name = false) →
  the_batch (Dir link es) prompt_string s
  = for_each (Py.sorted (Os.dirnames es))
      (λ subdirname,
         print (MsgSubdir subdirname);;
         send (Dir link es) [subdirname] prompt_string) s.
Proof.
  intros Hsub Hleaf Hnone. unfold batch.
  destruct (walk_one_level [] link es Hleaf) as (leaves & Hw & Hl).
  rewrite Hw.
  change (for_each (?e :: leaves) ?b) with (b e ≫= λ _, for_each leaves b).
  rewrite bind_noop.
  - unfold walk_body. by destruct (Os.dirnames es).
  - intros s'. apply for_each_noop. intros [[p ds] fs] s'' Hin.
    rewrite Forall_forall in Hl. specialize (Hl _ Hin). cbn in Hl. subst ds.
    cbn [walk_body]. by apply send_root_noop.
Qed.

End Shapes.

Lemma nothing_to_scan_witness :
  run (steady "supine") (Reg true) tt None
  = (Ok tt, started tt None, [EvPrint MsgStartingNew]).
Proof.
  apply (nothing_to_scan (steady "supine") takes_all takes_all default_filter_re
           "gemini-3-pro-preview" (Some "Describe the position.")
           rw (Reg true) tt None "Describe the position."); try reflexivity.
  by left.
Defined.

Lemma flat_root_is_scanned_once_witness :
  Os.dirnames [("002.jpg", Reg true); ("notes.txt", Reg true);
               ("003.png", Reg true); ("001.jpg", Reg true)] = [] ∧
  run (steady "supine") flat3 tt None
  = (let '(r, s', t) :=
       send_filtered_image_prompts_for_directory (steady "supine") takes_all takes_all
         default_filter_re "gemini-3-pro-preview" flat3 []
         "Describe the position." (started tt None) in
     (r, s', EvPrint (greeting None) :: t)).
Proof.
  split; [reflexivity|].
  apply (flat_root_is_scanned_once (steady "supine") takes_all takes_all
      default_filter_re
           "gemini-3-pro-preview" (Some "Describe the position.")
           rw tt None "Describe the position." false); reflexivity.
Defined.

Lemma one_level_is_scanned_by_subdirectory_witness :
  submissions
    (batch (steady "supine") takes_all takes_all
        default_filter_re "gemini-3-pro-preview" twins
       "Describe the position." (started tt None)).2
  = submissions
      (for_each (Py.sorted ["A"; "B"])
         (λ subdirname,
            print (MsgSubdir subdirname);;
            send_filtered_image_prompts_for_directory (steady "supine") takes_all takes_all
              default_filter_re "gemini-3-pro-preview" twins [subdirname]
              "Describe the position.") (started tt None)).2.
Proof.
  unfold twins.
  apply (f_equal (λ x, submissions x.2)).
  apply (one_level_is_scanned_by_subdirectory (steady "supine") takes_all takes_all
           default_filter_re "gemini-3-pro-preview" false
           [("A", Dir false [("1.jpg", Reg true)]);
            ("B", Dir false [("1.jpg", Reg true)])]
           "Describe the position." (started tt None)).
  - discriminate.
  - intros name es' Hin. repeat (apply elem_of_cons in Hin as [Hin|Hin]);
      [by injection Hin as -> ->|by injection Hin as -> ->
      |by apply elem_of_nil in Hin].
  - intros name Hin. repeat (apply elem_of_cons in Hin as [->|Hin]);
      [reflexivity|reflexivity|by apply elem_of_nil in Hin].
Defined.

(** ** One scan of a directory *)

Lemma lookup_entry_Some name n es :
  NoDup es.*1 → Os.lookup_entry name es = Some n ↔ (name, n) ∈ es.
Proof.
  induction es as [|[k c] es IH]; intros Hnd.
  - split; [done|]. by intros H%elem_of_nil.
  - apply NoDup_cons in Hnd as [Hk Hnd]. cbn [Os.lookup_entry].
    case_decide as Hkn.
    + subst k. split; [intros [= ->]; left|].
      intros [[= ->]|Hin]%elem_of_cons; [done|].
      destruct Hk. apply list_elem_of_fmap. by exists (name, n).
    + rewrite IH by done. split; [by right|].
      intros [[= -> ->]|Hin]%elem_of_cons; [done|done].
Qed.

Lemma lookup_entry_perm name es1 es2 :
  es1 ≡ₚ es2 → NoDup es1.*1 →
  Os.lookup_entry name es1 = Os.lookup_entry name es2.
Proof.
  intros Hp Hnd1.
  assert (NoDup es2.*1) as Hnd2 by by rewrite <- Hp.
  destruct (Os.lookup_entry name es1) as [n|] eqn:H1.
  - apply lookup_entry_Some in H1; [|done]. symmetry.
    apply lookup_entry_Some; [done|]. by rewrite <- Hp.
  - destruct (Os.lookup_entry name es2) as [n|] eqn:H2; [|done].
    apply lookup_entry_Some in H2; [|done]. rewrite <- Hp in H2.
    apply lookup_entry_Some in H2; [|done]. by rewrite H1 in H2.
Qed.

Lemma resolve_root_entry link es name :
  Os.resolve (Dir link es) (Os.path_join [] name) = Os.lookup_entry name es.
Proof. cbn. by destruct (Os.lookup_entry name es). Qed.

Lemma sorted_perm l1 l2 : l1 ≡ₚ l2 → Py.sorted l1 = Py.sorted l2.
Proof.
  intros Hp. unfold Py.sorted.
  apply (Sorted_unique String.le); [apply Sorted_merge_sort, _..|].
  by rewrite !merge_sort_Permutation.
Qed.

Lemma constant_sorted x (l : list string) :
  Forall (λ y, y = x) l → StronglySorted String.le l.
Proof.
  induction 1 as [|y l -> Hl IH]; constructor; [done|].
  eapply Forall_impl; [exact Hl|]. by intros ? ->.
Qed.

Section Scan.
Context {W : Type}.
Variable generate_content : W → request → option string * W.
Variable print_raises write_raises : W → string → bool.
Variable filter_re : string → bool.
Variable model_string : string.

Local Abbreviation entry root :=
  (process_entry generate_content print_raises write_raises
      filter_re model_string root).
Local Abbreviation send root :=
  (send_filtered_image_prompts_for_directory
     generate_content print_raises write_raises filter_re model_string root).

Lemma submitted_names_app t1 t2 :
  submitted_names (t1 ++ t2) = submitted_names t1 ++ submitted_names t2.
Proof. unfold submitted_names. by rewrite submissions_app, omap_app. Qed.

Lemma entry_submitted_names root img_dir prompt_string name s :
  Forall (λ y, y = name)
    (submitted_names (entry root img_dir prompt_string name s).2).
Proof.
  apply Forall_forall. intros y (r & Hr & Hy)%list_elem_of_omap.
  rewrite entry_cases in Hr.
  destruct (negb (filter_re name)); [by apply elem_of_nil in Hr|].
  case_bool_decide; [by apply elem_of_nil in Hr|].
  destruct (Os.resolve root (Os.path_join img_dir name)) as [[[]| |]|];
    try by apply elem_of_nil in Hr.
  pose proof (retry_submissions generate_content print_raises write_raises
      model_string name
                (Os.path_join img_dir name) prompt_string 0 s r) as Hsub.
  destruct (retry_loop _ _ _ _ _ _ _) as [[res s'] t]. cbn [snd] in *.
  rewrite Hsub in Hy by done. unfold submitted_name in Hy. cbn in Hy.
  unfold Os.path_join in Hy. rewrite last_snoc in Hy. by injection Hy.
Qed.

Lemma for_each_sorted_names root img_dir prompt_string l s :
  StronglySorted String.le l →
  let names := submitted_names
                 (for_each l (entry root img_dir prompt_string) s).2 in
  Forall (λ y, y ∈ l) names ∧ StronglySorted String.le names.
Proof.
  intros Hl. revert s. induction Hl as [|x l Hl IH Hx]; intros s names.
  - split; constructor.
  - unfold names. rewrite run_for_each_cons.
    pose proof (entry_submitted_names root img_dir prompt_string x s) as Hhead.
    destruct (entry root img_dir prompt_string x s) as [[[[]|e] s1] t1];
      cbn [snd] in *.
    + destruct (IH s1) as [Hin Hs].
      destruct (for_each l _ s1) as [[r s2] t2]. cbn [snd] in *.
      rewrite submitted_names_app. split.
      * apply Forall_app. split.
        -- eapply Forall_impl; [exact Hhead|]. intros ? ->. left.
        -- eapply Forall_impl; [exact Hin|]. intros ??. by right.
      * apply StronglySorted_app_2; [|by apply (constant_sorted x)|done].
        intros y1 y2 Hy1 Hy2.
        rewrite Forall_forall in Hhead, Hin, Hx.
        rewrite (Hhead y1 Hy1). apply Hx. by apply Hin.
    + split; [|by apply (constant_sorted x)].
      eapply Forall_impl; [exact Hhead|]. intros ? ->. left.
Qed.

(** X9.  Within one scan of a directory the requests go out in the
    sorted order of the file names: the file names of the successive
    requests (with the repeats of the retries) never decrease. *)
Theorem scan_submits_in_sorted_order root img_dir prompt_string s :
  StronglySorted String.le
    (submitted_names (send root img_dir prompt_string s).2).
Proof.
  unfold send_filtered_image_prompts_for_directory, listdir.
  rewrite run_bind.
  destruct (Os.resolve root img_dir) as [[| |link es]|]; try constructor.
  cbn [mret M_ret].
  destruct (for_each_sorted_names root img_dir prompt_string
              (Py.sorted es.*1) s) as [_ Hs].
  { apply StronglySorted_merge_sort; apply _. }
  by destruct (for_each _ _ s) as [[r s'] t].
Qed.

(** X10.  A scan of the root does not depend on the order in which
    [os.listdir] happens to return the entries: two directories with
    the same entries (of distinct names) in different orders are
    scanned with the same result, the same final state and the same
    events. *)
Theorem scan_ignores_listing_order link es1 es2 prompt_string s :
  es1 ≡ₚ es2 → NoDup es1.*1 →
  send_filtered_image_prompts_for_directory generate_content print_raises write_raises
      filter_re
    model_string (Dir link es1) [] prompt_string s
  = send_filtered_image_prompts_for_directory generate_content print_raises write_raises
      filter_re
      model_string (Dir link es2) [] prompt_string s.
Proof.
  intros Hp Hnd.
  unfold send_filtered_image_prompts_for_directory, listdir.
  rewrite !run_bind. cbn [Os.resolve mret M_ret].
  rewrite (sorted_perm es1.*1 es2.*1) by by rewrite Hp.
  rewrite (for_each_ext _ (entry (Dir link es1) [] prompt_string)
             (entry (Dir link es2) [] prompt_string)); [done|].
  intros name s' _. rewrite !entry_cases, !resolve_root_entry.
  by rewrite (lookup_entry_perm name es1 es2).
Qed.

(** X11.  A scan that ends normally and gave up on no item leaves
    every accepted entry of the directory in the ledger: each matching
    regular file was either already recorded or has been recorded by
    the scan. *)
Theorem quiet_scan_records_everything
    root img_dir prompt_string link es s s' t name :
  Os.resolve root img_dir = Some (Dir link es) →
  send root img_dir prompt_string s = (Ok tt, s', t) →
  quiet t →
  name ∈ es.*1 →
  accepted filter_re root img_dir name = true →
  name ∈ already_written_set s'.
Proof.
  intros Hres Hrun Hq Hin Hacc.
  unfold send_filtered_image_prompts_for_directory, listdir in Hrun.
  rewrite run_bind, Hres in Hrun. cbn [mret M_ret] in Hrun.
  assert (name ∈ Py.sorted es.*1) as Hin'
    by (unfold Py.sorted; by rewrite merge_sort_Permutation).
  destruct (for_each (Py.sorted es.*1) _ s) as [[r s1] t1] eqn:Hl.
  injection Hrun as -> -> <-. cbn [app] in Hq.
  clear Hin Hres. revert s t1 Hl Hq.
  induction (Py.sorted es.*1) as [|x l IH]; intros s t Hl Hq;
    [by apply elem_of_nil in Hin'|].
  rewrite run_for_each_cons in Hl.
  destruct (entry root img_dir prompt_string x s) as [[[[]|e] sa] ta] eqn:Hb;
    [|done].
  destruct (for_each l _ sa) as [[r sb] tb] eqn:Hrest. simplify_eq.
  apply quiet_app in Hq as [Hqa Hqb].
  apply elem_of_cons in Hin' as [->|Hin']; [|by apply (IH Hin' sa tb)].
  pose proof (ledger_mono
                (for_each l (entry root img_dir prompt_string)) sa
                (respects_for_each _ tracks_ledger_comp l _
                   (λ y, respects_entry generate_content print_raises write_raises
                       filter_re model_string
                           root _ tracks_ledger_comp
                           (tracks_ledger_steps generate_content)
                           img_dir prompt_string y))) as Hm.
  rewrite Hrest in Hm. cbn in Hm. apply Hm. clear Hm Hrest IH.
  rewrite entry_cases in Hb. unfold accepted, Os.path_isfile in Hacc.
  apply andb_true_iff in Hacc as [Hf Hfile]. rewrite Hf in Hb. cbn [negb] in Hb.
  case_bool_decide as Hold; [by simplify_eq|].
  destruct (Os.resolve root (Os.path_join img_dir x)) as [[[]| |]|];
    try done.
  destruct (retry_loop _ _ _ _ _ _ _) as [[res s1] t1] eqn:Hr.
  simplify_eq. eapply (retry_quiet_marks generate_content print_raises write_raises
      filter_re); [exact Hr|].
  intros Hbad. apply Hqa. by right.
Qed.

End Scan.

(** ** The listing of the models *)

Lemma prints_of_model_once m :
  NoDup (supported_actions m) →
  prints_of_model m
  = if decide (supports_generation m) then [model_name m] else [].
Proof.
  unfold prints_of_model, supports_generation.
  induction (supported_actions m) as [|a actions IH]; intros Hnd; [done|].
  apply NoDup_cons in Hnd as [Ha Hnd]. cbn [mbind list_bind]. rewrite IH by done.
  repeat case_decide; subst; try done; exfalso; set_solver.
Qed.

(** X12.  The listing at the start of [main] (lines 145-148) prints a
    name exactly for the models that support "generateContent", in the
    order of the service; when no model repeats an action in its list,
    each such model is printed once, so that the listing is the list of
    the names of the models that support generation. *)
Theorem listing_shows_the_generating_models models :
  (∀ name, name ∈ available_models models ↔
           ∃ m, m ∈ models ∧ model_name m = name ∧ supports_generation m)
  ∧ ((∀ m, m ∈ models → NoDup (supported_actions m)) →
     available_models models
     = model_name <$> filter supports_generation models).
Proof.
  split.
  - intros name. unfold available_models, prints_of_model.
    rewrite list_elem_of_bind. split.
    + intros (m & (action & Hp & Ha)%list_elem_of_bind & Hm).
      case_decide as Hact; [|by apply elem_of_nil in Hp].
      apply list_elem_of_singleton in Hp as ->. subst action. by exists m.
    + intros (m & Hm & <- & Hs). exists m. split; [|done].
      apply list_elem_of_bind. exists "generateContent". split; [|done].
      rewrite decide_True by done. by left.
  - intros Hnd. induction models as [|m models IH]; [done|].
    change (available_models (m :: models))
      with (prints_of_model m ++ available_models models).
    rewrite prints_of_model_once, IH, filter_cons.
    + by case_decide.
    + intros m' Hm'. apply Hnd. by right.
    + apply Hnd. left.
Qed.

(** ** Properties of the whole trace of a run *)

Section Always.
Context {W : Type}.
Variable generate_content : W → request → option string * W.
Variable print_raises write_raises : W → string → bool.
Variable filter_re : string → bool.
Variable model_string : string.
Variable image_directory : node.
Variable prompt_text_txt : option string.
Variable responses_access : access.

Local Abbreviation entry :=
  (process_entry generate_content print_raises write_raises
      filter_re model_string image_directory).
Local Abbreviation send :=
  (send_filtered_image_prompts_for_directory
     generate_content print_raises write_raises filter_re model_string image_directory).
Local Abbreviation run_main w responses :=
  (main generate_content print_raises write_raises
      filter_re model_string image_directory
        prompt_text_txt responses_access (initial w responses)).

Lemma always_bind {A B} Q (m : M W A) (k : A → M W B) :
  trace_closed Q → always Q m → (∀ a, always Q (k a)) → always Q (m ≫= k).
Proof.
  intros [Hnil Happ] Hm Hk s. rewrite run_bind.
  specialize (Hm s). destruct (m s) as [[[a|e] s1] t1]; [|done].
  specialize (Hk a s1). destruct (k a s1) as [[r s2] t2]. by apply Happ.
Qed.

Lemma always_for_each {A} Q (l : list A) (body : A → M W unit) :
  trace_closed Q → (∀ x, always Q (body x)) → always Q (for_each l body).
Proof.
  intros HQ Hbody. induction l as [|x l IH]; [intros s; apply HQ|].
  by apply always_bind.
Qed.

(** A property of the traces of the scans, closed under concatenation
    and true of a printed sub-directory name, is a property of the trace
    of the loop of [main]. *)
Lemma always_batch Q prompt_string :
  trace_closed Q →
  (∀ name, Q [EvPrint (MsgSubdir name)]) →
  (∀ img_dir name,
     img_dir = [] ∨ (∃ subdirname, img_dir = [subdirname]) →
     always Q (entry img_dir prompt_string name)) →
  always Q (batch generate_content print_raises write_raises
      filter_re model_string image_directory
              prompt_string).
Proof.
  intros HQ Hsub Hentry.
  assert (∀ img_dir, img_dir = [] ∨ (∃ subdirname, img_dir = [subdirname]) →
                     always Q (send img_dir prompt_string)) as Hsend.
  { intros img_dir Hd. apply always_bind; [done| |].
    - intros s. unfold listdir.
      destruct (Os.resolve image_directory img_dir) as [[]|]; apply HQ.
    - intros names. apply always_for_each; [done|]. intros name.
      by apply Hentry. }
  apply always_for_each; [done|]. intros [[dirpath dirnames] filenames].
  unfold walk_body. destruct dirnames as [|d ds]; [apply Hsend; by left|].
  apply always_for_each; [done|]. intros sub.
  apply always_bind; [done|intros s; apply Hsub|].
  intros _. apply Hsend. right. by exists sub.
Qed.

Lemma always_main Q w responses prompt_string :
  trace_closed Q →
  Q [EvPrint (greeting responses)] →
  (∀ name, Q [EvPrint (MsgSubdir name)]) →
  prompt_text_txt = Some prompt_string →
  (∀ img_dir name,
     img_dir = [] ∨ (∃ subdirname, img_dir = [subdirname]) →
     always Q (entry img_dir prompt_string name)) →
  Q (run_main w responses).2.
Proof.
  intros HQ Hgreet Hsub Hprompt Hentry. rewrite main_run, Hprompt.
  destruct (_ && _); [apply HQ|].
  destruct (can_append responses_access); [|apply Hgreet].
  pose proof (always_batch Q prompt_string HQ Hsub Hentry
                (started w responses)) as Hb.
  destruct (batch _ _ _ _ _ _) as [[r s'] t]. cbn [snd] in *.
  apply (proj2 HQ [_] t); [apply Hgreet|done].
Qed.

Lemma trace_closed_Forall (P : event → Prop) : trace_closed (Forall P).
Proof. split; [constructor|]. intros t1 t2 H1 H2. by apply Forall_app. Qed.

Lemma retry_events name file_path prompt_string s (P : event → Prop) :
  P (EvGenerate (Request model_string prompt_string file_path)) →
  (∀ e, is_generate_or_open e = false → P e) →
  Forall P (retry_loop generate_content print_raises write_raises model_string
              name file_path prompt_string 0 s).2.
Proof.
  intros Hgen Hother.
  assert (∀ r k retry_count w w' t,
            P (EvGenerate r) →
            misses generate_content print_raises write_raises r name retry_count k w
              = Some (w', t) →
            Forall P t) as Hfa.
  { intros r k. induction k as [|k IH]; intros retry_count w w' t Hr Hm.
    - injection Hm as <- <-. constructor.
    - apply misses_cons in Hm as (w1 & t1 & t2 & Hfa & Hm & ->).
      repeat (apply Forall_app; split); [| |by eapply IH].
      + unfold failed_attempt in Hfa.
        destruct (generate_content w r) as [[text|] w2];
          [destruct (print_raises w2 _); [|destruct (write_raises w2 _); [|done]]|];
          injection Hfa as <- <-; repeat constructor; try done; by apply Hother.
      + unfold handled. case_decide; repeat constructor; by apply Hother. }
  destruct (retry_loop_run generate_content print_raises write_raises model_string
              name file_path prompt_string 0 s)
    as [(k & w1 & t1 & text & w' & _ & Hm & _ & _ & _ & ->)|(w' & t1 & Hm & ->)];
    cbn [snd].
  - apply Forall_app. split; [by eapply Hfa|].
    repeat constructor; [done|by apply Hother..].
  - by eapply Hfa.
Qed.

(** X13.  Every image that a run of [main] opens and every request it
    sends is for a regular file whose name matches the pattern and that
    lies directly in the root or in a sub-directory of the root, never
    deeper; and every request carries the model name of the command
    line and the whole text of the prompt file. *)
Theorem run_touches_only_eligible_files w responses prompt_string :
  prompt_text_txt = Some prompt_string →
  Forall (lawful filter_re model_string image_directory prompt_string)
    (run_main w responses).2.
Proof.
  intros Hprompt.
  apply always_main with prompt_string;
    [apply trace_closed_Forall|by repeat constructor
    |by repeat constructor|done|].
  intros img_dir name Hdir s. rewrite entry_cases.
  destruct (filter_re name) eqn:Hf; cbn [negb]; [|constructor].
  case_bool_decide; [by repeat constructor|].
  destruct (Os.resolve image_directory (Os.path_join img_dir name))
    as [[[]| |]|] eqn:Hres; [| |constructor..].
  - assert (eligible filter_re image_directory (Os.path_join img_dir name))
      as Hel.
    { exists img_dir, name. split; [done|]. split; [|done].
      unfold accepted, Os.path_isfile. by rewrite Hf, Hres. }
    pose proof (retry_events name (Os.path_join img_dir name) prompt_string s
                  (lawful filter_re model_string image_directory prompt_string))
      as Hr.
    destruct (retry_loop _ _ _ _ _ _ _) as [[r s'] t]. cbn [snd] in *.
    constructor; [exact Hel|]. apply Hr; [done|]. by intros [].
  - repeat constructor. exists img_dir, name. split; [done|]. split; [|done].
    unfold accepted, Os.path_isfile. by rewrite Hf, Hres.
Qed.

Lemma trace_closed_first_try : trace_closed first_try.
Proof.
  split; [split; [done|split; [by intros H%elem_of_nil|done]]|].
  intros t1 t2 (Hs1 & Hq1 & Hl1) (Hs2 & Hq2 & Hl2).
  split; [by rewrite sleeps_app, Hs1, Hs2|].
  split; [by apply quiet_app|].
  rewrite submissions_app, marked_app, !length_app. lia.
Qed.

(** X14.  With a service that answers every call, and a console and a
    file that take every line, a run of [main] sends exactly one request
    for each file it records, never sleeps and gives up on no item. *)
Theorem reliable_service_needs_no_retry w responses :
  (∀ w' r, is_Some (generate_content w' r).1) →
  (∀ w' line, print_raises w' line = false) →
  (∀ w' line, write_raises w' line = false) →
  first_try (run_main w responses).2.
Proof.
  intros Hrel Hprints Hwrites.
  assert (∀ r name w0,
            failed_attempt generate_content print_raises write_raises r name w0
            = None) as Hnone.
  { intros r name w0. unfold failed_attempt.
    destruct (Hrel w0 r) as [text Ht].
    destruct (generate_content w0 r) as [[text'|] w2]; [|by cbn in Ht].
    by rewrite Hprints, Hwrites. }
  assert (∀ m, m ≠ MsgMaxRetries → first_try [EvPrint m]) as Hprint.
  { intros m Hm. split; [done|]. split; [|done].
    by intros [= <-]%list_elem_of_singleton. }
  assert (prompt_text_txt = None ∨ ∃ p, prompt_text_txt = Some p)
    as [Hprompt|[prompt_string Hprompt]]
    by (destruct prompt_text_txt; eauto).
  { rewrite main_run, Hprompt. apply trace_closed_first_try. }
  apply always_main with prompt_string;
    [apply trace_closed_first_try|apply Hprint; by destruct responses
    |by intros name; apply Hprint|done|].
  intros img_dir name _ s. rewrite entry_cases.
  destruct (negb (filter_re name)); [apply trace_closed_first_try|].
  case_bool_decide; [by apply Hprint|].
  destruct (Os.resolve image_directory (Os.path_join img_dir name))
    as [[[]| |]|]; try apply trace_closed_first_try.
  - destruct (retry_loop_run generate_content print_raises write_raises model_string
                name (Os.path_join img_dir name) prompt_string 0 s)
      as [(k & w1 & t1 & text & w' & _ & Hm & _ & _ & _ & ->)|(w' & t1 & Hm & _)];
      cbn [snd].
    + destruct k as [|k].
      * injection Hm as <- <-.
        split; [done|]. split; [|done].
        intros Hin. repeat (apply elem_of_cons in Hin as [[=]|Hin]).
        by apply elem_of_nil in Hin.
      * exfalso. apply misses_cons in Hm as (? & ? & ? & Hfa & _).
        by rewrite Hnone in Hfa.
    + exfalso. change (max_retries - 0) with 4 in Hm.
      apply misses_cons in Hm as (? & ? & ? & Hfa & _).
      by rewrite Hnone in Hfa.
  - split; [done|]. split; [|done]. by intros [=]%list_elem_of_singleton.
Qed.

End Always.

(** ** The further theorems at concrete inputs *)

Lemma scan_ignores_listing_order_witness :
  send_filtered_image_prompts_for_directory (steady "supine") takes_all takes_all
      default_filter_re
    "gemini-3-pro-preview"
    (Dir false [("2.jpg", Reg true); ("1.jpg", Reg true)]) []
    "Describe the position." (started tt None)
  = send_filtered_image_prompts_for_directory (steady "supine") takes_all takes_all
      default_filter_re
      "gemini-3-pro-preview"
      (Dir false [("1.jpg", Reg true); ("2.jpg", Reg true)]) []
      "Describe the position." (started tt None).
Proof.
  apply scan_ignores_listing_order.
  - apply perm_swap.
  - by_computation.
Defined.

Lemma quiet_scan_records_everything_witness :
  let scan :=
    send_filtered_image_prompts_for_directory (steady "supine") takes_all takes_all
      default_filter_re "gemini-3-pro-preview" flat3 []
      "Describe the position." (started tt None) in
  quiet scan.2 ∧ "003.png" ∈ already_written_set scan.1.2.
Proof.
  intros scan.
  assert (quiet scan.2) as Hq by by_computation.
  split; [exact Hq|].
  apply (quiet_scan_records_everything (steady "supine") takes_all takes_all
      default_filter_re
           "gemini-3-pro-preview" flat3 [] "Describe the position." false
           [("002.jpg", Reg true); ("notes.txt", Reg true);
            ("003.png", Reg true); ("001.jpg", Reg true)]
           (started tt None) scan.1.2 scan.2 "003.png").
  - reflexivity.
  - vm_compute. reflexivity.
  - exact Hq.
  - by_computation.
  - reflexivity.
Defined.

Lemma listing_shows_the_generating_models_witness :
  available_models
    [ModelInfo "models/gemini-3-pro-preview" ["generateContent"; "countTokens"];
     ModelInfo "models/embedding-001" ["embedContent"];
     ModelInfo "models/gemini-2.5-flash" ["countTokens"; "generateContent"]]
  = ["models/gemini-3-pro-preview"; "models/gemini-2.5-flash"].
Proof.
  rewrite (proj2 (listing_shows_the_generating_models _)).
  - by vm_compute.
  - intros m Hm. repeat (apply elem_of_cons in Hm as [->|Hm]);
      [by_computation..|by apply elem_of_nil in Hm].
Defined.

Lemma run_touches_only_eligible_files_witness :
  Forall (lawful default_filter_re "gemini-3-pro-preview" twins
            "Describe the position.")
    (run scripted twins [None; None; None; None; Some "supine"] None).2.
Proof.
  apply (run_touches_only_eligible_files scripted takes_all takes_all default_filter_re
           "gemini-3-pro-preview" twins (Some "Describe the position.") rw
           [None; None; None; None; Some "supine"] None
           "Describe the position." eq_refl).
Defined.

Lemma reliable_service_needs_no_retry_witness :
  first_try (run (steady "supine") flat3 tt None).2.
Proof.
  apply (reliable_service_needs_no_retry (steady "supine") takes_all takes_all
      default_filter_re
           "gemini-3-pro-preview" flat3 (Some "Describe the position.") rw
           tt None).
  - intros w' r. by eexists.
  - reflexivity.
  - reflexivity.
Defined.
